(** * vampytest: assertions, output writer and default event formatter

    A shallow embedding of the parts of vampytest that decide the properties
    stated below, and the proofs of those properties.

    - [Py]: the few Python notions the sources rely on (string methods,
      truthiness of a string, decimal formatting of a count).
    - [OutputWriter]: [vampytest/core/output_writer.py].
    - [Assertions]: [vampytest/assertions/assertion_base.py],
      [vampytest/core/assertions/assertion_identical.py],
      [vampytest/core/assertions/assertion_false.py] and the units of
      [vampytest/core/assertions/tests/test_assertion_subtype.py].
    - [Default]: [vampytest/core/event_handling/default.py].

    Definitions come first, the theorems follow. *)

From Stdlib Require Import Ascii String DecimalString.
From stdpp Require Import base tactics option list strings gmap.

Local Open Scope string_scope.
Local Open Scope list_scope.

(* ===================================================================== *)
(** * Python strings *)
(* ===================================================================== *)

Module Py.

(** ['\n'] *)
Definition LINE_BREAK : string := String "010"%char "".

(** [string.startswith(prefix)] *)
Fixpoint startswith (text prefix : string) : bool :=
  match prefix, text with
  | "", _ => true
  | String _ _, "" => false
  | String p prefix', String c text' =>
      bool_decide (p = c) && startswith text' prefix'
  end.

(** [string.endswith(suffix)] *)
Definition endswith (text suffix : string) : bool :=
  startswith (String.rev text) (String.rev suffix).

(** [string * count] *)
Fixpoint str_mul (text : string) (count : nat) : string :=
  match count with
  | 0 => ""
  | S count' => text +:+ str_mul text count'
  end.

(** Truthiness of a string: [if string:] holds for the non-empty ones. *)
Definition str_bool (text : string) : bool :=
  match text with
  | "" => false
  | String _ _ => true
  end.

(** [f'{count}'] for a non-negative integer. *)
Definition format_int (count : nat) : string :=
  NilEmpty.string_of_uint (Nat.to_uint count).

(** [''.join(parts)] *)
Definition join (parts : list string) : string :=
  foldr String.append "" parts.

End Py.

(* ===================================================================== *)
(** * core/output_writer.py *)
(* ===================================================================== *)

Module OutputWriter.
Import Py.

(** [BREAK_LINE = '=' * 80] *)
Definition BREAK_LINE : string := str_mul "=" 80.

(** The writer.  [file] is any writable object; it is represented by the
    arguments of the [file.write] calls it has received, oldest first. *)
Record OutputWriter := {
  _last_chunk_break_line : bool;
  _last_write_ended_with_linebreak : bool;
  file : list string
}.

(** [OutputWriter.__new__]; [file] stands for the already resolved
    writable object ([sys.stdout] when none is given). *)
Definition new (file : list string) : OutputWriter :=
  {| _last_chunk_break_line := false;
     _last_write_ended_with_linebreak := false;
     file := file |}.

(** [self.file.write(string)] *)
Definition file_write (self : OutputWriter) (text : string) : OutputWriter :=
  {| _last_chunk_break_line := _last_chunk_break_line self;
     _last_write_ended_with_linebreak := _last_write_ended_with_linebreak self;
     file := file self ++ [text] |}.

(** [OutputWriter.write_break_line] *)
Definition write_break_line (self : OutputWriter) : bool * OutputWriter :=
  if _last_chunk_break_line self then (false, self)
  else
    let self :=
      if negb (_last_write_ended_with_linebreak self)
      then file_write self LINE_BREAK
      else self in
    let self := file_write self BREAK_LINE in
    (true,
     {| _last_chunk_break_line := true;
        _last_write_ended_with_linebreak := false;
        file := file self |}).

(** [OutputWriter.write]; the parameter [string] is named [text] here. *)
Definition write (self : OutputWriter) (text : string) : bool * OutputWriter :=
  if negb (str_bool text) then (false, self)
  else
    let self :=
      if negb (_last_write_ended_with_linebreak self)
         && negb (startswith text LINE_BREAK)
      then file_write self LINE_BREAK
      else self in
    let self := file_write self text in
    (true,
     {| _last_chunk_break_line := false;
        _last_write_ended_with_linebreak := endswith text LINE_BREAK;
        file := file self |}).

(** Everything the file has received, as one text. *)
Definition file_content (self : OutputWriter) : string := join (file self).

(** The chunks the file received between the states [before] and [after]. *)
Definition chunks_since (before after : OutputWriter) : list string :=
  drop (length (file before)) (file after).

(** How many of the chunks are separators. *)
Definition count_break_lines (chunks : list string) : nat :=
  length (filter (λ chunk, chunk = BREAK_LINE) chunks).

(** Two [write_break_line] calls in a row; the pair of returned values and
    the final writer. *)
Definition write_break_line_twice (self : OutputWriter)
  : (bool * bool) * OutputWriter :=
  let '(written_1, self) := write_break_line self in
  let '(written_2, self) := write_break_line self in
  ((written_1, written_2), self).

(** A run of [write] calls, the returned values dropped. *)
Definition write_all (self : OutputWriter) (texts : list string) : OutputWriter :=
  foldl (λ self text, (write self text).2) self texts.

(** A partial write: a non-empty string that neither starts nor ends with
    a line break. *)
Definition is_partial (text : string) : bool :=
  str_bool text
  && negb (startswith text LINE_BREAK)
  && negb (endswith text LINE_BREAK).

(** The reading of "joined on the same output line": after writing
    [text_1] and then [text_2] the file's text ends with the two strings
    next to each other. *)
Definition joined_on_same_line (self : OutputWriter) (text_1 text_2 : string)
  : bool :=
  endswith (file_content (write_all self [text_1; text_2]))
           (text_1 +:+ text_2).

(** ** Runs of calls *)

(** The two calls a user of the writer can make. *)
Inductive Call :=
  | call_write (text : string)
  | call_write_break_line.

Definition perform (self : OutputWriter) (made : Call) : bool * OutputWriter :=
  match made with
  | call_write text => write self text
  | call_write_break_line => write_break_line self
  end.

(** A run of calls, the returned values dropped. *)
Definition perform_all (self : OutputWriter) (calls : list Call) : OutputWriter :=
  foldl (λ self made, (perform self made).2) self calls.

(** Whether a call is a [write_break_line] or a [write] of the empty
    string: the calls that can be refused. *)
Definition is_break_line_or_empty (made : Call) : bool :=
  match made with
  | call_write text => negb (str_bool text)
  | call_write_break_line => true
  end.

Definition is_break_line (made : Call) : bool :=
  match made with
  | call_write _ => false
  | call_write_break_line => true
  end.

(** The meaning the two flags keep over a run of calls.  When
    [_last_write_ended_with_linebreak] is set the text written so far ends
    with a line break; when [_last_chunk_break_line] is set the other flag
    is not, and the last chunk is a separator that starts a line. *)
Definition flags_sound (self : OutputWriter) : Prop :=
  (_last_write_ended_with_linebreak self = true →
   endswith (file_content self) LINE_BREAK = true)
  ∧ (_last_chunk_break_line self = true →
     _last_write_ended_with_linebreak self = false
     ∧ ∃ chunks, file self = chunks ++ [BREAK_LINE]
                 ∧ endswith (join chunks) LINE_BREAK = true).

(** ** [OutputWriter.__del__] *)







End OutputWriter.

(* ===================================================================== *)
(** * Test results *)
(* ===================================================================== *)

(** Modelled from the spec: the classification of the result of a unit, one
    of six; the class of results is not among the sources. *)
Inductive Classification :=
  PASSED | FAILED | SKIPPED | INFORMAL | CONFLICTED | UNKNOWN.

Global Instance Classification_eq_dec : EqDecision Classification.
Proof. solve_decision. Defined.

(* ===================================================================== *)
(** * assertions/ and core/assertions/ *)
(* ===================================================================== *)

Module Assertions.

(** ** Python values, references and errors *)

(** The classes the units of [test_assertion_subtype.py] mention, with
    the two every class hierarchy has. *)
Inductive PyType := type_object | type_type | type_int | type_bool | type_str.

Global Instance PyType_eq_dec : EqDecision PyType.
Proof. solve_decision. Defined.

(** A value: a plain datum or a class (classes are first-class values). *)
Inductive PyValue :=
  | VNone
  | VBool (b : bool)
  | VInt (z : Z)
  | VStr (s : string)
  | VType (t : PyType).

Global Instance PyValue_eq_dec : EqDecision PyValue.
Proof. solve_decision. Defined.

(** [cls.__mro__]: the class followed by its bases. *)
Definition mro (cls : PyType) : list PyType :=
  match cls with
  | type_object => [type_object]
  | type_type => [type_type; type_object]
  | type_int => [type_int; type_object]
  | type_bool => [type_bool; type_int; type_object]
  | type_str => [type_str; type_object]
  end.

(** [issubclass(cls, class_or_tuple)] for two classes. *)
Definition issubclass (cls class_ : PyType) : bool :=
  bool_decide (class_ ∈ mro cls).

(** [isinstance(value, type)] *)
Definition is_type (value : PyValue) : bool :=
  match value with
  | VType _ => true
  | _ => false
  end.

(** [bool(value)] *)
Definition truth (value : PyValue) : bool :=
  match value with
  | VNone => false
  | VBool b => b
  | VInt z => negb (Z.eqb z 0)
  | VStr s => Py.str_bool s
  | VType _ => true
  end.

(** [value_1 == value_2]; a [bool] compares as the integer it is. *)
Definition py_eq (value_1 value_2 : PyValue) : bool :=
  match value_1, value_2 with
  | VNone, VNone => true
  | VBool a, VBool b => bool_decide (a = b)
  | VBool a, VInt z | VInt z, VBool a => Z.eqb (Z.b2z a) z
  | VInt a, VInt b => Z.eqb a b
  | VStr a, VStr b => bool_decide (a = b)
  | VType a, VType b => bool_decide (a = b)
  | _, _ => false
  end.

(** Objects live in a heap; an operand is a reference into it, and two
    references denote the same object when they are the same reference. *)
Definition Ref := positive.
Abbreviation Heap := (gmap positive PyValue).

(** [value_1 is value_2] *)
Definition py_is (value_1 value_2 : Ref) : bool :=
  bool_decide (value_1 = value_2).

(** [value_1 == value_2] on references: the referenced values compare
    equal. *)
Definition py_eq_ref (heap : Heap) (value_1 value_2 : Ref) : bool :=
  match heap !! value_1, heap !! value_2 with
  | Some v1, Some v2 => py_eq v1 v2
  | _, _ => false
  end.

(** Kinds of error, and the errors themselves. *)
Inductive ErrorKind :=
  BaseException | Exception | TypeError | ValueError | AssertionException.

Global Instance ErrorKind_eq_dec : EqDecision ErrorKind.
Proof. solve_decision. Defined.

Definition error_mro (kind : ErrorKind) : list ErrorKind :=
  match kind with
  | BaseException => [BaseException]
  | Exception => [Exception; BaseException]
  | TypeError => [TypeError; Exception; BaseException]
  | ValueError => [ValueError; Exception; BaseException]
  | AssertionException => [AssertionException; BaseException]
  end.

(** [isinstance(error, kind)] *)
Definition is_kind (raised kind : ErrorKind) : bool :=
  bool_decide (kind ∈ error_mro raised).

(** ** assertions/assertion_base.py *)

(** Modelled from the spec: the module [assertion_states], imported as
    [CONDITION_STATES], is not among the sources; the states are the three of
    the data model. *)
Module CONDITION_STATES.
Inductive ConditionState := NONE | SUCCEEDED | FAILED.

Global Instance ConditionState_eq_dec : EqDecision ConditionState.
Proof. solve_decision. Defined.
End CONDITION_STATES.

Abbreviation ConditionState := CONDITION_STATES.ConditionState.

(** [AssertionBase]: [__slots__ = ('state',)] *)
Record AssertionBase := { state : ConditionState }.

(** [AssertionBase.__new__] *)
Definition AssertionBase_new : AssertionBase :=
  {| state := CONDITION_STATES.NONE |}.

(** Modelled from the spec: [get_assertion_state_name] is not among the
    sources; a state is shown by its name. *)
Definition get_assertion_state_name (state : ConditionState) : string :=
  match state with
  | CONDITION_STATES.NONE => "NONE"
  | CONDITION_STATES.SUCCEEDED => "SUCCEEDED"
  | CONDITION_STATES.FAILED => "FAILED"
  end.

(** [AssertionBase._cursed_repr_builder]: the parts before the [yield] and
    the part appended after it; [extra] is what the caller appended while
    the generator was suspended. *)
Definition _cursed_repr_builder (class_name : string) (self : AssertionBase)
    (extra : list string) : list string :=
  let repr_parts := ["<"; class_name] in
  let repr_parts := (repr_parts ++ [" state="])%list in
  let repr_parts := (repr_parts ++ [get_assertion_state_name (state self)])%list in
  let repr_parts := (repr_parts ++ extra)%list in
  (repr_parts ++ [">"])%list.

(** [AssertionBase.__repr__] *)
Definition repr (class_name : string) (self : AssertionBase) : string :=
  Py.join (_cursed_repr_builder class_name self []).

(** ** Conditions *)

(** Modelled from the spec: [assertion_conditional_base.py] is not among the
    sources.  A condition holds its [state] and, once its evaluation has
    failed with an error, that error ([exception] in the docstrings of the
    subclasses). *)
Record AssertionConditionalBase := {
  base : AssertionBase;
  exception : option ErrorKind
}.

(** Modelled from the spec: the constructor of the missing base class; a
    new condition has no captured error. *)
Definition AssertionConditionalBase_new : AssertionConditionalBase :=
  {| base := AssertionBase_new; exception := None |}.

(** What invoking the predicate of a condition can come to. *)
Inductive PredicateOutcome :=
  | Satisfied
  | Unsatisfied
  | Threw (error : ErrorKind)     (* the predicate itself raised *)
  | Misused (error : ErrorKind).  (* usage error: malformed operands *)

(** The spec leaves open what evaluating a condition again does once it has
    a terminal state; these are the two behaviours it names. *)
Inductive ReplayPolicy := IdempotentReplay | ReplayIsUsageError.

Definition set_state (self : AssertionConditionalBase) (state : ConditionState)
    (exception : option ErrorKind) : AssertionConditionalBase :=
  {| base := {| state := state |}; exception := exception |}.

(** Modelled from the spec: [evaluate()] of the missing base class.  The
    predicate is invoked once and [outcome] is what it came to.  A usage
    error leaves [evaluate] as an error ([inl]); otherwise the condition,
    in its terminal state, and whether it was satisfied are returned. *)
Definition evaluate (policy : ReplayPolicy) (self : AssertionConditionalBase)
    (outcome : PredicateOutcome)
  : ErrorKind + (AssertionConditionalBase * bool) :=
  match state (base self) with
  | CONDITION_STATES.NONE =>
      match outcome with
      | Satisfied => inr (set_state self CONDITION_STATES.SUCCEEDED None, true)
      | Unsatisfied => inr (set_state self CONDITION_STATES.FAILED None, false)
      | Threw error =>
          inr (set_state self CONDITION_STATES.FAILED (Some error), false)
      | Misused error => inl error
      end
  | CONDITION_STATES.SUCCEEDED =>
      match policy with
      | IdempotentReplay => inr (self, true)
      | ReplayIsUsageError => inl TypeError
      end
  | CONDITION_STATES.FAILED =>
      match policy with
      | IdempotentReplay => inr (self, false)
      | ReplayIsUsageError => inl TypeError
      end
  end.

(** The states a condition goes through when [evaluate] is called on it
    once per element of [outcomes]; an error that leaves [evaluate] ends
    the unit, so nothing follows it. *)
Fixpoint state_history (policy : ReplayPolicy) (self : AssertionConditionalBase)
    (outcomes : list PredicateOutcome) : list ConditionState :=
  state (base self) ::
  match outcomes with
  | [] => []
  | outcome :: outcomes' =>
      match evaluate policy self outcome with
      | inl _ => []
      | inr (self', _) => state_history policy self' outcomes'
      end
  end.

(** The number of places where a history changes state. *)
Fixpoint count_transitions (history : list ConditionState) : nat :=
  match history with
  | state_1 :: (state_2 :: _) as rest =>
      (if decide (state_1 = state_2) then 0 else 1) + count_transitions rest
  | _ => 0
  end.

(** ** core/assertions/assertion_identical.py *)

(** [AssertionIdentical]: the inherited part and
    [__slots__ = ('value_1', 'value_2',)] *)
Record AssertionIdentical := {
  identical_base : AssertionConditionalBase;
  value_1 : Ref;
  value_2 : Ref
}.

(** [AssertionIdentical.invoke_condition] *)
Definition AssertionIdentical_invoke_condition (self : AssertionIdentical) : bool :=
  py_is (value_1 self) (value_2 self).

(** ** core/assertions/assertion_false.py *)

(** [AssertionValueEvaluationFalse]: the inherited part and the slot
    [value_1] of [AssertionConditionalBase1Value]. *)
Record AssertionValueEvaluationFalse := {
  false_base : AssertionConditionalBase;
  false_value_1 : PyValue
}.

(** [AssertionValueEvaluationFalse.invoke_condition] *)
Definition AssertionValueEvaluationFalse_invoke_condition
    (self : AssertionValueEvaluationFalse) : bool :=
  negb (truth (false_value_1 self)).

(** ** The subtype assertion and the units of test_assertion_subtype.py *)

(** Modelled from the spec: [assertion_subtype.py] is not among the sources.
    The predicate of the subtype condition: a [reference] that is not a
    type is a usage error; a [checked] that is not a type makes the
    relation false. *)
Definition AssertionSubtype_invoke_condition (checked reference : PyValue)
  : PredicateOutcome :=
  match reference with
  | VType reference_type =>
      match checked with
      | VType checked_type =>
          if issubclass checked_type reference_type then Satisfied else Unsatisfied
      | _ => Unsatisfied
      end
  | _ => Misused TypeError
  end.

(** How the body of a unit ends. *)
Inductive BodyOutcome :=
  | Completed                          (* ran to its end, nothing failed *)
  | ConditionFailed (condition : AssertionConditionalBase)
  | Raised (error : ErrorKind).

(** Modelled from the spec: [assert_subtype(checked, reference)] as the only
    statement of a body: the condition is created and evaluated once. *)
Definition assert_subtype (checked reference : PyValue) : BodyOutcome :=
  match evaluate IdempotentReplay AssertionConditionalBase_new
          (AssertionSubtype_invoke_condition checked reference) with
  | inl error => Raised error
  | inr (condition, true) => Completed
  | inr (condition, false) => ConditionFailed condition
  end.

Inductive Modifier := revert | raising (kind : ErrorKind).

(** Modelled from the spec: the classification of a unit from the way its
    body ended and the modifier it is wrapped in, if any. *)
Definition classify (modifier : option Modifier) (outcome : BodyOutcome)
  : Classification :=
  match modifier with
  | None =>
      match outcome with
      | Completed => PASSED
      | _ => FAILED
      end
  | Some revert =>
      match outcome with
      | Completed => FAILED
      | _ => PASSED
      end
  | Some (raising kind) =>
      match outcome with
      | Raised error => if is_kind error kind then PASSED else FAILED
      | _ => FAILED
      end
  end.

(** The four units of [test_assertion_subtype.py]. *)
Definition test_assert_subtype : Classification :=
  classify None (assert_subtype (VType type_bool) (VType type_int)).

Definition test_assert_subtype_reverted : Classification :=
  classify (Some revert) (assert_subtype (VType type_bool) (VType type_str)).

Definition test_assert_subtype_incorrect_type : Classification :=
  classify (Some (raising TypeError)) (assert_subtype (VType type_bool) (VInt 1)).

Definition test_assert_subtype_incorrect_checked : Classification :=
  classify (Some revert) (assert_subtype (VInt 1) (VType type_int)).

End Assertions.

(* ===================================================================== *)
(** * core/event_handling/default.py *)
(* ===================================================================== *)

Module Default.
Import Py.

(** The constants of the missing module [colors]. *)
Inductive Color := COLOR_FAIL | COLOR_PASS | COLOR_SKIP | COLOR_UNKNOWN.

(** What the formatter imports or is handed and that is not among the
    sources: the nodes of the discovery tree ([FileSystemEntry]) with their
    hooks, load failures, the modifier parameters of a result, and the
    helpers [style_text] and [build_result_modifier_parameters]. *)
Class Collaborators := {
  Entry : Type;
  Entry_eq_dec :: EqDecision Entry;
  Entry_countable :: Countable Entry;
  LoadFailure : Type;
  ModifierParameters : Type;
  (* [entry.get_name()] *)
  get_name : Entry → string;
  (* [entry.iter_parents()], root first *)
  iter_parents : Entry → list Entry;
  (* [entry.render_into(into, name = name)] *)
  render_into : Entry → list string → option string → list string;
  (* [entry.render_custom_sub_directory_into(into, name, is_last)] *)
  render_custom_sub_directory_into : Entry → list string → string → bool → list string;
  (* [style_text(text, foreground)] *)
  style_text : string → Color → string;
  build_result_modifier_parameters : ModifierParameters → string
}.

Section Formatter.
Context `{Collaborators}.

(** A test file as the handlers use it (its class is not among the
    sources): [file.entry] and [file.is_loaded_with_failure()]. *)
Record TestFile := {
  entry : Entry;
  is_loaded_with_failure : bool
}.

(** A result as the handlers use it (its class is not among the sources):
    its classification and what the accessors named in the comments return. *)
Record Result := {
  classification : Classification;
  (* [result.case.get_test_file()] *)
  case_test_file : option TestFile;
  (* [result.case.name] *)
  case_name : string;
  (* [result.case.is_last()] *)
  case_is_last : bool;
  (* [result.is_last()] *)
  is_last : bool;
  (* [result.get_modifier_parameters()] *)
  get_modifier_parameters : ModifierParameters
}.

(** Modelled from the spec: the predicates [is_skipped], [is_conflicted],
    [is_informal], [is_passed] and [is_failed] of the missing class of
    results; each tells whether the result has that classification. *)
Definition is_skipped (result : Result) : bool :=
  bool_decide (classification result = SKIPPED).
Definition is_conflicted (result : Result) : bool :=
  bool_decide (classification result = CONFLICTED).
Definition is_informal (result : Result) : bool :=
  bool_decide (classification result = INFORMAL).
Definition is_passed (result : Result) : bool :=
  bool_decide (classification result = PASSED).
Definition is_failed (result : Result) : bool :=
  bool_decide (classification result = FAILED).

(** The run context as the handlers read it (its class is not among the
    sources): one field per accessor, with the value the accessor returns.
    The handlers only read it. *)
Record TestingContext := {
  get_registered_file_count : nat;
  get_file_load_failures : list LoadFailure;
  iter_failed_results : list Result;
  iter_informal_results : list Result;
  get_failed_test_count : nat;
  get_skipped_test_count : nat;
  get_passed_test_count : nat
}.

(** The events, with their payload. *)
Inductive Event :=
  | FileRegistrationDoneEvent (context : TestingContext)
  | FileLoadDoneEvent (file : TestFile)
  | TestDoneEvent (result : Result)
  | FileTestingDoneEvent (file : TestFile)
  | TestingEndEvent (context : TestingContext).

(** The output writer of the formatter ([default_output_writer.OutputWriter])
    and the helpers of [rendering_helpers.writers] that write through it are
    not among the sources.  The writer is represented by the calls made on
    it; a helper that is handed the writer counts as one call. *)
Inductive WriterCall :=
  | write_line (line : string)
  | write_break_line
  | write (text : string)
  | end_line
  | write_load_failure (load_failure : LoadFailure)
  | write_result_failing (result : Result)
  | write_result_informal (result : Result).

(** [DefaultEventFormatter]: [__slots__ = ('rendered_entries', 'output_writer',)].
    [output_writer] holds the calls received, oldest first.
    [render_into_calls] is not a slot: it records, oldest first, the
    entries whose [render_into] hook has been called. *)
Record DefaultEventFormatter := {
  rendered_entries : gset Entry;
  output_writer : list WriterCall;
  render_into_calls : list Entry
}.

(** [DefaultEventFormatter.__new__]; [output_writer] stands for the writer
    that is given (or created), with the calls it has received so far. *)
Definition new (output_writer : list WriterCall) : DefaultEventFormatter :=
  {| rendered_entries := ∅;
     output_writer := output_writer;
     render_into_calls := [] |}.

(** A call on [self.output_writer]. *)
Definition call (self : DefaultEventFormatter) (made : WriterCall)
  : DefaultEventFormatter :=
  {| rendered_entries := rendered_entries self;
     output_writer := output_writer self ++ [made];
     render_into_calls := render_into_calls self |}.

(** [into = entry.render_into(into, name = name)] followed by
    [rendered_entries.add(entry)]. *)
Definition render_and_add (self : DefaultEventFormatter) (into : list string)
    (rendered : Entry) (name : option string)
  : list string * DefaultEventFormatter :=
  (render_into rendered into name,
   {| rendered_entries := rendered_entries self ∪ {[rendered]};
      output_writer := output_writer self;
      render_into_calls := render_into_calls self ++ [rendered] |}).

(** One round of the loop over [entry.iter_parents()]. *)
Definition render_parent (acc : list string * DefaultEventFormatter)
    (sub_entry : Entry) : list string * DefaultEventFormatter :=
  let '(into, self) := acc in
  if decide (sub_entry ∈ rendered_entries self) then (into, self)
  else render_and_add self into sub_entry None.

(** [DefaultEventFormatter._maybe_render_test_file_into] *)
Definition _maybe_render_test_file_into (self : DefaultEventFormatter)
    (into : list string) (rendered : Entry) (name : option string)
  : list string * DefaultEventFormatter :=
  if decide (rendered ∉ rendered_entries self) then
    let '(into, self) := foldl render_parent (into, self) (iter_parents rendered) in
    render_and_add self into rendered name
  else (into, self).

(** [DefaultEventFormatter.file_registration_done] *)
Definition file_registration_done (self : DefaultEventFormatter)
    (context : TestingContext) : DefaultEventFormatter :=
  let self := call self (write_line
    ("Collected " +:+ format_int (get_registered_file_count context)
     +:+ " test file(s).")) in
  call self write_break_line.

(** [DefaultEventFormatter.file_load_done] *)
Definition file_load_done (self : DefaultEventFormatter) (file : TestFile)
  : DefaultEventFormatter :=
  if is_loaded_with_failure file then
    let '(message_parts, self) :=
      _maybe_render_test_file_into self [] (entry file)
        (Some (style_text (get_name (entry file)) COLOR_FAIL)) in
    call self (write_line (join message_parts))
  else self.

(** [DefaultEventFormatter.test_done] *)
Definition test_done (self : DefaultEventFormatter) (result : Result)
  : DefaultEventFormatter :=
  match case_test_file result with
  | None => self
  | Some test_file =>
      let '(message_parts, self) :=
        _maybe_render_test_file_into self [] (entry test_file) None in
      let '(keyword, foreground) :=
        if is_skipped result then ("S", COLOR_SKIP)
        else if is_conflicted result then ("C", COLOR_FAIL)
        else if is_informal result then ("I", COLOR_PASS)
        else if is_passed result then ("P", COLOR_PASS)
        else if is_failed result then ("F", COLOR_FAIL)
        else ("?", COLOR_UNKNOWN) in
      let result_modifiers :=
        build_result_modifier_parameters (get_modifier_parameters result) in
      let message_parts :=
        render_custom_sub_directory_into (entry test_file) message_parts
          (style_text (keyword +:+ " " +:+ case_name result +:+ result_modifiers)
                      foreground)
          (is_last result && case_is_last result) in
      call self (write_line (join message_parts))
  end.

(** [DefaultEventFormatter.file_testing_done] *)
Definition file_testing_done (self : DefaultEventFormatter) (file : TestFile)
  : DefaultEventFormatter :=
  let '(message_parts, self) :=
    _maybe_render_test_file_into self [] (entry file) None in
  match message_parts with
  | [] => self
  | _ :: _ => call self (write_line (join message_parts))
  end.

(** A message part of the summary: [f'{count} {word}'], styled when the
    count is not zero. *)
Definition message_part (count : nat) (word : string) (foreground : Color)
  : string :=
  let part := format_int count +:+ " " +:+ word in
  match count with
  | 0 => part
  | S _ => style_text part foreground
  end.

(** [f'{failed_message_part} | {skipped_message_part} | {passed_message_part}'] *)
Definition summary (context : TestingContext) : string :=
  message_part (get_failed_test_count context) "failed" COLOR_FAIL
  +:+ " | " +:+
  message_part (get_skipped_test_count context) "skipped" COLOR_SKIP
  +:+ " | " +:+
  message_part (get_passed_test_count context) "passed" COLOR_PASS.

(** [style_text(f' | {len(load_failures)} files failed to load', COLOR_FAIL)] *)
Definition load_failure_suffix (load_failures : list LoadFailure) : string :=
  style_text (" | " +:+ format_int (length load_failures)
              +:+ " files failed to load") COLOR_FAIL.

(** [DefaultEventFormatter.testing_end] *)
Definition testing_end (self : DefaultEventFormatter) (context : TestingContext)
  : DefaultEventFormatter :=
  let self := call self write_break_line in
  let load_failures := get_file_load_failures context in
  let self := foldl (λ self load_failure, call self (write_load_failure load_failure))
                    self load_failures in
  let self := foldl (λ self result, call self (write_result_failing result))
                    self (iter_failed_results context) in
  let failed_count := get_failed_test_count context in
  let self :=
    match failed_count with
    | S _ => self
    | 0 => foldl (λ self result, call self (write_result_informal result))
                 self (iter_informal_results context)
    end in
  let self := call self (write (summary context)) in
  let self :=
    match load_failures with
    | _ :: _ => call self (write (load_failure_suffix load_failures))
    | [] => self
    end in
  call self end_line.

(** The handler an event is routed to, as registered by
    [create_default_event_handler_manager]. *)
Definition handle (self : DefaultEventFormatter) (event : Event)
  : DefaultEventFormatter :=
  match event with
  | FileRegistrationDoneEvent context => file_registration_done self context
  | FileLoadDoneEvent file => file_load_done self file
  | TestDoneEvent result => test_done self result
  | FileTestingDoneEvent file => file_testing_done self file
  | TestingEndEvent context => testing_end self context
  end.

(** What [rendered_entries] is kept for: no entry has had its
    [render_into] hook called twice, and every entry whose hook was called
    is in the set. *)
Definition rendered_entries_sound (self : DefaultEventFormatter) : Prop :=
  NoDup (render_into_calls self)
  ∧ ∀ rendered, rendered ∈ render_into_calls self →
                rendered ∈ rendered_entries self.

(** The hooks were called parents first: wherever an entry stands among the
    calls, all of its parents stand before it. *)
Definition parents_first (calls : list Entry) : Prop :=
  ∀ before rendered after,
    calls = before ++ rendered :: after →
    ∀ parent, parent ∈ iter_parents rendered → parent ∈ before.

(** The record of a formatter that rendered parents first: the set holds
    exactly the entries whose hook was called, and the hooks were called
    parents first. *)
Definition rendered_in_order (self : DefaultEventFormatter) : Prop :=
  (∀ rendered, rendered ∈ rendered_entries self
               ↔ rendered ∈ render_into_calls self)
  ∧ parents_first (render_into_calls self).

(** [iter_parents] gives the path from the root: the parents of a parent of
    a node are the parents of the node that come before it. *)
Definition is_path_tree : Prop :=
  ∀ node before parent after,
    iter_parents node = before ++ parent :: after →
    iter_parents parent = before.

(** The calls the writer received between two states of the formatter. *)
Definition calls_since (before after : DefaultEventFormatter) : list WriterCall :=
  drop (length (output_writer before)) (output_writer after).

(** The informal results written by a run of calls, in order. *)
Definition informal_written (calls : list WriterCall) : list Result :=
  omap (λ made, match made with
                | write_result_informal result => Some result
                | _ => None
                end) calls.

(** The failed results written by a run of calls, in order. *)
Definition failing_written (calls : list WriterCall) : list Result :=
  omap (λ made, match made with
                | write_result_failing result => Some result
                | _ => None
                end) calls.

(** The load failures written by a run of calls, in order. *)
Definition load_failures_written (calls : list WriterCall) : list LoadFailure :=
  omap (λ made, match made with
                | write_load_failure load_failure => Some load_failure
                | _ => None
                end) calls.

(** The lines handed to [write_line] by a run of calls, in order. *)
Definition lines_written (calls : list WriterCall) : list string :=
  omap (λ made, match made with
                | write_line line => Some line
                | _ => None
                end) calls.

(** The entry an event asks the formatter to render, if any. *)
Definition rendered_by (event : Event) : option Entry :=
  match event with
  | FileLoadDoneEvent file =>
      if is_loaded_with_failure file then Some (entry file) else None
  | TestDoneEvent result => entry <$> case_test_file result
  | FileTestingDoneEvent file => Some (entry file)
  | FileRegistrationDoneEvent _ | TestingEndEvent _ => None
  end.

(** The texts handed to [write] by a run of calls, in order. *)
Definition texts_written (calls : list WriterCall) : list string :=
  omap (λ made, match made with
                | write text => Some text
                | _ => None
                end) calls.

End Formatter.

(** ** A small tree and plain styling, to run the handlers on *)

(** Nodes are numbered as in a binary heap: the root is [1] and the parent
    of a node is the node without its last bit. *)
Fixpoint positive_parents (node : positive) : list positive :=
  match node with
  | xH => []
  | xO parent | xI parent => positive_parents parent ++ [parent]
  end.

Definition plain_collaborators : Collaborators :=
  {| Entry := positive;
     LoadFailure := string;
     ModifierParameters := string;
     get_name := λ node, format_int (Pos.to_nat node);
     iter_parents := positive_parents;
     render_into := λ node into name,
       (into ++ [default (format_int (Pos.to_nat node)) name; "/"])%list;
     render_custom_sub_directory_into := λ node into name is_last,
       (into ++ [name])%list;
     style_text := λ text foreground, text;
     build_result_modifier_parameters := λ parameters, parameters |}.

Definition example_file (node : positive) : @TestFile plain_collaborators :=
  @Build_TestFile plain_collaborators node false.

Definition example_failed_result : @Result plain_collaborators :=
  @Build_Result plain_collaborators
    FAILED (Some (example_file 3)) "test_fails" false true "".

(** A run with 3 passed, 1 failed, 1 skipped and no informal test. *)
Definition example_context : @TestingContext plain_collaborators :=
  {| get_registered_file_count := 1;
     get_file_load_failures := [];
     iter_failed_results := [example_failed_result];
     iter_informal_results := [];
     get_failed_test_count := 1;
     get_skipped_test_count := 1;
     get_passed_test_count := 3 |}.

(** A run with 2 passed tests and two files that failed to load. *)
Definition example_context_with_load_failures
  : @TestingContext plain_collaborators :=
  @Build_TestingContext plain_collaborators
    3 ["broken_1.py"; "broken_2.py"] [] [] 0 0 2.

End Default.

(* ===================================================================== *)
(** * Properties of core/output_writer.py *)
(* ===================================================================== *)

Section OutputWriterFacts.
Import Py OutputWriter.

Lemma LINE_BREAK_is_no_break_line : LINE_BREAK ≠ BREAK_LINE.
Proof. by vm_compute. Qed.

Lemma count_break_lines_app chunks_1 chunks_2 :
  count_break_lines (chunks_1 ++ chunks_2)
  = count_break_lines chunks_1 + count_break_lines chunks_2.
Proof. unfold count_break_lines. by rewrite filter_app, length_app. Qed.

Lemma count_break_lines_BREAK_LINE : count_break_lines [BREAK_LINE] = 1.
Proof. by vm_compute. Qed.

Lemma count_break_lines_LINE_BREAK : count_break_lines [LINE_BREAK] = 0.
Proof. by vm_compute. Qed.

(** What a [write_break_line] call that writes hands to the file. *)
Lemma write_break_line_file self :
  _last_chunk_break_line self = false →
  file (write_break_line self).2
  = file self
    ++ (if _last_write_ended_with_linebreak self then [] else [LINE_BREAK])
    ++ [BREAK_LINE].
Proof.
  intros Hlast. unfold write_break_line. rewrite Hlast.
  destruct (_last_write_ended_with_linebreak self); simpl; [done|].
  by rewrite <- app_assoc.
Qed.

Lemma write_break_line_sets_flag self :
  _last_chunk_break_line (write_break_line self).2 = true.
Proof.
  unfold write_break_line.
  by destruct (_last_chunk_break_line self) eqn:Hlast.
Qed.

(** A [write_break_line] call right after a break line is refused. *)
Lemma write_break_line_refused self :
  _last_chunk_break_line self = true → write_break_line self = (false, self).
Proof. intros Hlast. unfold write_break_line. by rewrite Hlast. Qed.

(** What a [write] call hands to the file, and the flags it leaves. *)
Lemma write_nonempty self c s :
  write self (String c s)
  = (true,
     {| _last_chunk_break_line := false;
        _last_write_ended_with_linebreak := endswith (String c s) LINE_BREAK;
        file := file self
                ++ (if negb (_last_write_ended_with_linebreak self)
                       && negb (startswith (String c s) LINE_BREAK)
                    then [LINE_BREAK] else [])
                ++ [String c s] |}).
Proof.
  unfold write. simpl str_bool. simpl negb at 1. cbv iota.
  destruct (negb (_last_write_ended_with_linebreak self)
            && negb (startswith (String c s) LINE_BREAK)); simpl; [|done].
  by rewrite <- app_assoc.
Qed.

Lemma is_partial_inv text :
  is_partial text = true →
  (∃ c s, text = String c s)
  ∧ startswith text LINE_BREAK = false
  ∧ endswith text LINE_BREAK = false.
Proof.
  unfold is_partial. intros Hpartial.
  apply andb_true_iff in Hpartial as [Hpartial Hend].
  apply andb_true_iff in Hpartial as [Hnonempty Hstart].
  apply negb_true_iff in Hend, Hstart.
  split; [|done]. destruct text; [done|]. eauto.
Qed.

(** A partial write after a write that did not end the line: the writer
    breaks the line first, and the line is again left open. *)
Lemma write_partial self text :
  is_partial text = true →
  _last_write_ended_with_linebreak self = false →
  file (write self text).2 = file self ++ [LINE_BREAK; text]
  ∧ _last_write_ended_with_linebreak (write self text).2 = false.
Proof.
  intros ([c [s ->]] & Hstart & Hend)%is_partial_inv Hopen.
  rewrite write_nonempty, Hopen, Hstart, Hend. by split.
Qed.

Lemma write_all_partial texts : ∀ self,
  Forall (λ text, is_partial text = true) texts →
  _last_write_ended_with_linebreak self = false →
  file (write_all self texts)
  = file self ++ flat_map (λ text, [LINE_BREAK; text]) texts.
Proof.
  induction texts as [|text texts IH]; intros self Hpartial Hopen.
  - simpl. by rewrite app_nil_r.
  - apply Forall_cons in Hpartial as [Htext Htexts].
    destruct (write_partial self text Htext Hopen) as [Hfile Hopen'].
    unfold write_all in *. simpl foldl. rewrite IH by done.
    rewrite Hfile. simpl. by rewrite <- app_assoc.
Qed.

(** C10: writing the empty string is a no-op.  [write] returns [False] and
    leaves the writer as it was: nothing is handed to the file and both
    flags keep their value.  Writing a non-empty string returns [True]. *)
Theorem write_empty_is_noop (self : OutputWriter) :
  write self "" = (false, self)
  ∧ (write self "").1 = false
  ∧ file (write self "").2 = file self
  ∧ _last_chunk_break_line (write self "").2 = _last_chunk_break_line self
  ∧ _last_write_ended_with_linebreak (write self "").2
    = _last_write_ended_with_linebreak self
  ∧ ∀ c s, (write self (String c s)).1 = true.
Proof.
  repeat split; try done.
Qed.

(** C7, as stated, fails: on a writer whose last chunk already is a break
    line (here: a new writer after one [write_break_line]) two further
    [write_break_line] calls in a row emit no separator at all, not one. *)
Lemma write_break_line_twice_after_break_line :
  let self := (write_break_line (new [])).2 in
  _last_chunk_break_line self = true
  ∧ count_break_lines (chunks_since self (write_break_line_twice self).2) = 0
  ∧ count_break_lines (chunks_since self (write_break_line_twice self).2) ≠ 1.
Proof. by vm_compute. Qed.

(** C7, amended: of two [write_break_line] calls in a row the second one
    returns [False], writes nothing and leaves the writer as the first call
    left it, for every writer state.  The first call writes iff the last
    chunk was not a break line; so the two calls emit exactly one separator
    when the last chunk was not a break line, and none when it was. *)
Theorem write_break_line_twice_spec (self : OutputWriter) :
  let after_first := (write_break_line self).2 in
  let '((written_1, written_2), after) := write_break_line_twice self in
  written_2 = false
  ∧ after = after_first
  ∧ chunks_since after_first after = []
  ∧ written_1 = negb (_last_chunk_break_line self)
  ∧ count_break_lines (chunks_since self after)
    = (if _last_chunk_break_line self then 0 else 1).
Proof.
  unfold write_break_line_twice.
  destruct (write_break_line self) as [written_1 after_first] eqn:Hfirst.
  pose proof (write_break_line_sets_flag self) as Hflag.
  rewrite Hfirst in Hflag. simpl in Hflag.
  rewrite (write_break_line_refused after_first Hflag). simpl.
  split; [done|]. split; [done|].
  split; [unfold chunks_since; by rewrite drop_all|].
  destruct (_last_chunk_break_line self) eqn:Hlast.
  - rewrite (write_break_line_refused self Hlast) in Hfirst.
    injection Hfirst as <- <-. split; [done|].
    unfold chunks_since. by rewrite drop_all.
  - pose proof (write_break_line_file self Hlast) as Hfile.
    rewrite Hfirst in Hfile. simpl in Hfile.
    split.
    + unfold write_break_line in Hfirst. rewrite Hlast in Hfirst.
      by injection Hfirst as <- _.
    + unfold chunks_since. rewrite Hfile, drop_app_length.
      rewrite count_break_lines_app, count_break_lines_BREAK_LINE.
      destruct (_last_write_ended_with_linebreak self); [done|].
      by rewrite count_break_lines_LINE_BREAK.
Qed.

(** C8, as stated, fails: two partial writes, ["abc"] and then ["def"], on
    a new writer are not joined on one line; the file receives a line
    break before each of them. *)
Lemma partial_writes_are_not_joined :
  is_partial "abc" = true
  ∧ is_partial "def" = true
  ∧ file_content (write_all (new []) ["abc"; "def"])
    = LINE_BREAK +:+ "abc" +:+ LINE_BREAK +:+ "def"
  ∧ joined_on_same_line (new []) "abc" "def" = false.
Proof. by vm_compute. Qed.

(** C8, amended: [write] starts every chunk on a new line, without adding
    a line break where one already is.  For every writer state and every
    non-empty string, [write] returns [True]; one line break is handed to
    the file before the string exactly when the flag
    [_last_write_ended_with_linebreak] is not set and the string does not
    start with a line break; then the string itself follows unchanged, and
    the flag is left telling whether the string ends with a line break.  So
    in every sequence of writes, between two consecutive non-empty strings
    one line break is inserted exactly when the first does not end with a
    line break and the second does not start with one.  And for every
    sequence of partial writes after a write that did not end its line, each
    string is preceded by one line break: the strings are put on lines of
    their own. *)
Theorem write_starts_chunk_on_new_line
    (self : OutputWriter) (texts : list string) :
  (∀ c s,
     let text := String c s in
     write self text
     = (true,
        {| _last_chunk_break_line := false;
           _last_write_ended_with_linebreak := endswith text LINE_BREAK;
           file := file self
                   ++ (if negb (_last_write_ended_with_linebreak self)
                          && negb (startswith text LINE_BREAK)
                       then [LINE_BREAK] else [])
                   ++ [text] |}))
  ∧ (∀ c_1 s_1 c_2 s_2,
       let text_1 := String c_1 s_1 in
       let text_2 := String c_2 s_2 in
       file (write_all self (texts ++ [text_1; text_2]))
       = file (write_all self (texts ++ [text_1]))
         ++ (if negb (endswith text_1 LINE_BREAK)
                && negb (startswith text_2 LINE_BREAK)
             then [LINE_BREAK] else [])
         ++ [text_2])
  ∧ (Forall (λ text, is_partial text = true) texts →
     _last_write_ended_with_linebreak self = false →
     file (write_all self texts)
     = file self ++ flat_map (λ text, [LINE_BREAK; text]) texts).
Proof.
  split; [|split].
  - intros c s. cbv zeta. apply write_nonempty.
  - intros c_1 s_1 c_2 s_2. cbv zeta.
    unfold write_all. rewrite !foldl_app.
    cbn [foldl]. by rewrite !write_nonempty.
  - apply write_all_partial.
Qed.

Lemma write_starts_chunk_on_new_line_witness :
  file (write_all (new []) ["abc"; "def"])
  = [LINE_BREAK; "abc"; LINE_BREAK; "def"].
Proof.
  apply (proj2 (proj2 (write_starts_chunk_on_new_line (new []) ["abc"; "def"]))).
  - repeat constructor.
  - reflexivity.
Defined.

End OutputWriterFacts.

(* ===================================================================== *)
(** * Properties of the assertions *)
(* ===================================================================== *)

Section AssertionFacts.
Import Assertions.

Lemma count_transitions_cons (state_1 state_2 : ConditionState) history :
  count_transitions (state_1 :: state_2 :: history)
  = (if decide (state_1 = state_2) then 0 else 1)
    + count_transitions (state_2 :: history).
Proof. reflexivity. Qed.

Lemma count_transitions_replicate n (state : ConditionState) :
  count_transitions (replicate n state) = 0.
Proof.
  induction n as [|n IH]; [done|].
  destruct n as [|n]; [done|].
  rewrite !replicate_S, count_transitions_cons, <- replicate_S, IH.
  by rewrite decide_True.
Qed.

(** Once the state is terminal, no further [evaluate] changes it, under
    either replay policy. *)
Lemma evaluate_terminal policy self outcome :
  state (base self) ≠ CONDITION_STATES.NONE →
  match evaluate policy self outcome with
  | inl _ => True
  | inr (self', satisfied) =>
      self' = self ∧ (satisfied = true ↔ state (base self) = CONDITION_STATES.SUCCEEDED)
  end.
Proof.
  intros Hterminal. unfold evaluate.
  destruct (state (base self)) eqn:Hstate, policy; naive_solver.
Qed.

Lemma state_history_terminal policy outcomes : ∀ self,
  state (base self) ≠ CONDITION_STATES.NONE →
  ∃ n, state_history policy self outcomes = replicate (S n) (state (base self)).
Proof.
  induction outcomes as [|outcome outcomes IH]; intros self Hterminal.
  - by exists 0.
  - pose proof (evaluate_terminal policy self outcome Hterminal) as Hsame.
    simpl. destruct (evaluate policy self outcome) as [error|[self' satisfied]].
    + by exists 0.
    + destruct Hsame as [-> _].
      destruct (IH self Hterminal) as [n ->]. by exists (S n).
Qed.

(** The first evaluation of a new condition, when it returns, leaves a
    terminal state that tells whether the condition was satisfied. *)
Lemma evaluate_new policy outcome self' satisfied :
  evaluate policy AssertionConditionalBase_new outcome = inr (self', satisfied) →
  state (base self') ≠ CONDITION_STATES.NONE
  ∧ (satisfied = true ↔ state (base self') = CONDITION_STATES.SUCCEEDED).
Proof.
  destruct outcome; simpl; intros [= <- <-]; simpl; naive_solver.
Qed.

Lemma state_history_new policy outcomes :
  ∃ n terminal,
    terminal ≠ CONDITION_STATES.NONE
    ∧ state_history policy AssertionConditionalBase_new outcomes
      = CONDITION_STATES.NONE :: replicate n terminal.
Proof.
  destruct outcomes as [|outcome outcomes].
  - by exists 0, CONDITION_STATES.FAILED.
  - simpl.
    destruct (evaluate policy AssertionConditionalBase_new outcome)
      as [error|[self' satisfied]] eqn:Hevaluate.
    + by exists 0, CONDITION_STATES.FAILED.
    + apply evaluate_new in Hevaluate as [Hterminal _].
      destruct (state_history_terminal policy outcomes self' Hterminal) as [n ->].
      by exists (S n), (state (base self')).
Qed.

Lemma count_transitions_from_NONE n terminal :
  terminal ≠ CONDITION_STATES.NONE →
  count_transitions (CONDITION_STATES.NONE :: replicate n terminal)
  = match n with 0 => 0 | S _ => 1 end.
Proof.
  intros Hterminal. destruct n as [|n]; [done|].
  rewrite replicate_S, count_transitions_cons, <- replicate_S.
  rewrite count_transitions_replicate. by rewrite decide_False.
Qed.

(** C1, as stated, fails: not every condition changes state exactly once.
    The condition of [subtype(bool, 1)] is created with state [NONE]; its
    evaluation ends in a usage error, so the state never leaves [NONE]: no
    transition at all, whatever is evaluated afterwards. *)
Lemma condition_with_usage_error_never_transitions :
  let outcomes :=
    [AssertionSubtype_invoke_condition (VType type_bool) (VInt 1); Satisfied] in
  let history :=
    state_history IdempotentReplay AssertionConditionalBase_new outcomes in
  history = [CONDITION_STATES.NONE]
  ∧ count_transitions history = 0
  ∧ count_transitions history ≠ 1.
Proof. by vm_compute. Qed.

(** C1, amended: a condition is created with state [NONE]
    ([AssertionBase.__new__]).  Whatever calls of [evaluate] follow, its
    states are [NONE], then one terminal state that never changes again:
    the state changes at most once, from [NONE] to [SUCCEEDED] or [FAILED],
    and never back.  When the first evaluation returns, the condition has
    left [NONE] for [SUCCEEDED] or [FAILED] as the condition was satisfied or
    not, and the state has changed exactly once.  When the first evaluation
    ends in a usage error, the state stays [NONE]: it never changes. *)
Theorem condition_state_transitions_once
    (policy : ReplayPolicy) (outcomes : list PredicateOutcome) :
  let history := state_history policy AssertionConditionalBase_new outcomes in
  state AssertionBase_new = CONDITION_STATES.NONE
  ∧ state (base AssertionConditionalBase_new) = CONDITION_STATES.NONE
  ∧ (∃ n terminal, terminal ≠ CONDITION_STATES.NONE ∧ history = CONDITION_STATES.NONE :: replicate n terminal)
  ∧ (count_transitions history ≤ 1)%nat
  ∧ (∀ outcome rest self' satisfied,
       outcomes = outcome :: rest →
       evaluate policy AssertionConditionalBase_new outcome
       = inr (self', satisfied) →
       state (base self') ≠ CONDITION_STATES.NONE
       ∧ (satisfied = true ↔ state (base self') = CONDITION_STATES.SUCCEEDED)
       ∧ count_transitions history = 1)
  ∧ (∀ error rest,
       outcomes = Misused error :: rest →
       evaluate policy AssertionConditionalBase_new (Misused error) = inl error
       ∧ history = [CONDITION_STATES.NONE]
       ∧ count_transitions history = 0).
Proof.
  intros history.
  split; [done|]. split; [done|].
  split; [apply state_history_new|].
  split; [|split].
  - destruct (state_history_new policy outcomes) as (n & terminal & Hterminal & Hhistory).
    subst history. rewrite Hhistory, count_transitions_from_NONE by done.
    destruct n; lia.
  - intros outcome rest self' satisfied -> Hevaluate.
    pose proof (evaluate_new _ _ _ _ Hevaluate) as [Hterminal Hsatisfied].
    split; [done|]. split; [done|].
    subst history. simpl state_history. rewrite Hevaluate.
    destruct (state_history_terminal policy rest self' Hterminal) as [n ->].
    by rewrite (count_transitions_from_NONE (S n)).
  - intros error rest ->. by subst history.
Qed.

Lemma condition_state_transitions_once_witness :
  count_transitions
    (state_history IdempotentReplay AssertionConditionalBase_new
       [Unsatisfied; Satisfied; Threw ValueError]) = 1.
Proof.
  eapply (proj1 (proj2 (proj2 (proj2 (proj2
    (condition_state_transitions_once IdempotentReplay
       [Unsatisfied; Satisfied; Threw ValueError])))))); reflexivity.
Defined.

(** C4: evaluating the subtype assertion with a reference that is not a
    type is a usage error: the predicate reports misuse, the error leaves
    [evaluate] instead of a condition in state [FAILED] with a captured
    error, and the body of the unit ends by that raise, not by a failed
    condition. *)
Theorem subtype_reference_not_a_type_raises
    (policy : ReplayPolicy) (checked reference : PyValue) :
  is_type reference = false →
  AssertionSubtype_invoke_condition checked reference = Misused TypeError
  ∧ evaluate policy AssertionConditionalBase_new
      (AssertionSubtype_invoke_condition checked reference) = inl TypeError
  ∧ assert_subtype checked reference = Raised TypeError
  ∧ ∀ condition, assert_subtype checked reference ≠ ConditionFailed condition.
Proof.
  intros Hreference. unfold assert_subtype.
  destruct reference; try discriminate Hreference; by destruct policy.
Qed.

Lemma subtype_reference_not_a_type_raises_witness :
  evaluate IdempotentReplay AssertionConditionalBase_new
    (AssertionSubtype_invoke_condition (VType type_bool) (VInt 1)) = inl TypeError
  ∧ assert_subtype (VType type_bool) (VInt 1) = Raised TypeError.
Proof.
  destruct (subtype_reference_not_a_type_raises IdempotentReplay
              (VType type_bool) (VInt 1)) as (_ & Hevaluate & Hbody & _).
  - reflexivity.
  - split; [exact Hevaluate | exact Hbody].
Defined.

(** C5: with a type as reference the subtype assertion never ends in an
    error: for every checked operand, [evaluate] returns a condition and
    whether it was satisfied, and it is satisfied iff the checked operand is
    a type that is a subclass of the reference.  The condition returned has
    state [SUCCEEDED] when satisfied and [FAILED] when not, and no captured
    error; the unit passes when satisfied and fails when not.  So
    [subtype(bool, int)] is satisfied and the unit passes;
    [subtype(bool, str)] is not satisfied and the unit fails;
    [subtype(1, int)], whose checked operand is not a type, is not satisfied
    either: an ordinary condition in state [FAILED], not a raise. *)
Theorem subtype_with_type_reference
    (policy : ReplayPolicy) (checked : PyValue) (reference_type : PyType) :
  let evaluate_subtype checked reference :=
    evaluate policy AssertionConditionalBase_new
      (AssertionSubtype_invoke_condition checked reference) in
  let satisfied :=
    match checked with
    | VType checked_type => issubclass checked_type reference_type
    | _ => false
    end in
  (∃ condition,
     evaluate_subtype checked (VType reference_type) = inr (condition, satisfied)
     ∧ state (base condition)
       = (if satisfied then CONDITION_STATES.SUCCEEDED
          else CONDITION_STATES.FAILED)
     ∧ exception condition = None
     ∧ assert_subtype checked (VType reference_type)
       = (if satisfied then Completed else ConditionFailed condition)
     ∧ classify None (assert_subtype checked (VType reference_type))
       = (if satisfied then PASSED else FAILED))
  ∧ (∃ condition,
       evaluate_subtype (VType type_bool) (VType type_int) = inr (condition, true)
       ∧ state (base condition) = CONDITION_STATES.SUCCEEDED
       ∧ exception condition = None
       ∧ classify None (assert_subtype (VType type_bool) (VType type_int))
         = PASSED)
  ∧ (∃ condition,
       evaluate_subtype (VType type_bool) (VType type_str) = inr (condition, false)
       ∧ state (base condition) = CONDITION_STATES.FAILED
       ∧ exception condition = None
       ∧ classify None (assert_subtype (VType type_bool) (VType type_str))
         = FAILED)
  ∧ (∃ condition,
       evaluate_subtype (VInt 1) (VType type_int) = inr (condition, false)
       ∧ state (base condition) = CONDITION_STATES.FAILED
       ∧ exception condition = None
       ∧ assert_subtype (VInt 1) (VType type_int) = ConditionFailed condition
       ∧ classify None (assert_subtype (VInt 1) (VType type_int)) = FAILED).
Proof.
  intros evaluate_subtype satisfied. subst evaluate_subtype satisfied.
  split; [|by repeat split; destruct policy; eexists].
  unfold assert_subtype, AssertionSubtype_invoke_condition.
  destruct checked as [| | | |checked_type];
    try (destruct policy; by eexists).
  destruct (issubclass checked_type reference_type);
    destruct policy; by eexists.
Qed.

(** The four units of [test_assertion_subtype.py] pass, as the repository
    expects of its own tests. *)
Lemma test_assertion_subtype_units_pass :
  test_assert_subtype = PASSED
  ∧ test_assert_subtype_reverted = PASSED
  ∧ test_assert_subtype_incorrect_type = PASSED
  ∧ test_assert_subtype_incorrect_checked = PASSED.
Proof. done. Qed.

(** C6: the identity condition is satisfied iff its two operands are the
    same object.  Two different objects are never identical, also when
    their values compare equal. *)
Theorem identical_iff_same_object (heap : Heap) (self : AssertionIdentical) :
  (AssertionIdentical_invoke_condition self = true
   ↔ value_1 self = value_2 self)
  ∧ (py_eq_ref heap (value_1 self) (value_2 self) = true →
     value_1 self ≠ value_2 self →
     AssertionIdentical_invoke_condition self = false).
Proof.
  unfold AssertionIdentical_invoke_condition, py_is. split.
  - apply bool_decide_eq_true.
  - intros _ Hdifferent. by apply bool_decide_eq_false.
Qed.

Lemma identical_iff_same_object_witness :
  AssertionIdentical_invoke_condition
    {| identical_base := AssertionConditionalBase_new;
       value_1 := 1%positive; value_2 := 2%positive |} = false.
Proof.
  apply (proj2 (identical_iff_same_object
                  {[ 1%positive := VStr "spam"; 2%positive := VStr "spam" ]}
                  {| identical_base := AssertionConditionalBase_new;
                     value_1 := 1%positive; value_2 := 2%positive |})).
  - by vm_compute.
  - by vm_compute.
Defined.

End AssertionFacts.

(* ===================================================================== *)
(** * Properties of core/event_handling/default.py *)
(* ===================================================================== *)

Lemma string_app_assoc (s1 s2 s3 : string) :
  (s1 +:+ s2) +:+ s3 = s1 +:+ s2 +:+ s3.
Proof.
  induction s1 as [|c s1 IH]; [done|].
  change (String c ((s1 +:+ s2) +:+ s3) = String c (s1 +:+ s2 +:+ s3)).
  by rewrite IH.
Qed.

Lemma positive_parents_below node : ∀ parent,
  parent ∈ Default.positive_parents node → (parent < node)%positive.
Proof.
  induction node as [node IH|node IH|]; simpl; intros parent Hparent.
  - apply elem_of_app in Hparent as [Hparent|Hparent%list_elem_of_singleton].
    + specialize (IH _ Hparent). lia.
    + subst. lia.
  - apply elem_of_app in Hparent as [Hparent|Hparent%list_elem_of_singleton].
    + specialize (IH _ Hparent). lia.
    + subst. lia.
  - by apply elem_of_nil in Hparent.
Qed.

(** In the numbered tree no node is among its own parents. *)
Lemma positive_parents_proper (node : positive) :
  node ∉ Default.positive_parents node.
Proof. intros Hparent%positive_parents_below. lia. Qed.

Section DefaultFacts.
Import Py Default.
Context `{Collaborators}.

(** ** The calls made on the writer *)

Lemma foldl_call {A} (made : A → WriterCall) items : ∀ self,
  foldl (λ self item, call self (made item)) self items
  = {| rendered_entries := rendered_entries self;
       output_writer := output_writer self ++ (made <$> items);
       render_into_calls := render_into_calls self |}.
Proof.
  induction items as [|item items IH]; intros self; simpl.
  - rewrite app_nil_r. by destruct self.
  - rewrite IH. simpl. by rewrite <- app_assoc.
Qed.

(** Everything [testing_end] asks of the writer, in order. *)
Lemma testing_end_calls self context :
  calls_since self (testing_end self context)
  = [write_break_line]
    ++ (write_load_failure <$> get_file_load_failures context)
    ++ (write_result_failing <$> iter_failed_results context)
    ++ match get_failed_test_count context with
       | 0 => write_result_informal <$> iter_informal_results context
       | S _ => []
       end
    ++ [write (summary context)]
    ++ match get_file_load_failures context with
       | [] => []
       | _ :: _ => [write (load_failure_suffix (get_file_load_failures context))]
       end
    ++ [end_line].
Proof.
  unfold calls_since, testing_end. rewrite !foldl_call.
  destruct (get_failed_test_count context);
    destruct (get_file_load_failures context) as [|load_failure load_failures];
    rewrite ?foldl_call; simpl;
    rewrite <- ?app_assoc; simpl;
    by rewrite drop_app_length.
Qed.

Lemma texts_written_app calls_1 calls_2 :
  texts_written (calls_1 ++ calls_2)
  = texts_written calls_1 ++ texts_written calls_2.
Proof. apply omap_app. Qed.

Lemma informal_written_app calls_1 calls_2 :
  informal_written (calls_1 ++ calls_2)
  = informal_written calls_1 ++ informal_written calls_2.
Proof. apply omap_app. Qed.

Lemma texts_written_fmap {A} (made : A → WriterCall) items :
  (∀ item text, made item ≠ write text) →
  texts_written (made <$> items) = [].
Proof.
  intros Hmade. induction items as [|item items IH]; [done|].
  unfold texts_written in *. simpl.
  destruct (made item) eqn:Hitem; try done. by destruct (Hmade item text).
Qed.

Lemma informal_written_fmap {A} (made : A → WriterCall) items :
  (∀ item result, made item ≠ write_result_informal result) →
  informal_written (made <$> items) = [].
Proof.
  intros Hmade. induction items as [|item items IH]; [done|].
  unfold informal_written in *. simpl.
  destruct (made item) eqn:Hitem; try done. by destruct (Hmade item result).
Qed.

Lemma informal_written_informal results :
  informal_written (write_result_informal <$> results) = results.
Proof.
  induction results as [|result results IH]; [done|].
  change (result :: informal_written (write_result_informal <$> results)
          = result :: results).
  by rewrite IH.
Qed.

(** The summary under a styling that leaves the text as it is. *)
Lemma summary_plain context :
  (∀ text foreground, style_text text foreground = text) →
  summary context
  = format_int (get_failed_test_count context) +:+ " failed | "
    +:+ format_int (get_skipped_test_count context) +:+ " skipped | "
    +:+ format_int (get_passed_test_count context) +:+ " passed".
Proof.
  intros Hplain.
  assert (∀ count word foreground,
            message_part count word foreground = format_int count +:+ " " +:+ word)
    as Hpart.
  { intros count word foreground. unfold message_part.
    destruct count; [done|]. apply Hplain. }
  unfold summary. rewrite !Hpart. by rewrite !string_app_assoc.
Qed.

(** C2: when the run ends, [testing_end] hands the summary to the writer
    exactly once, whatever was written for failures before: the calls are
    some calls that hand nothing to [write], then the one [write] of the
    summary, then the [write] of the load-failure count suffix iff a load
    failure was recorded, then [end_line]; so the texts handed to [write] are
    the summary and, iff a load failure was recorded, the suffix.  The
    summary is the three message parts ["{count} failed"],
    ["{count} skipped"] and ["{count} passed"] joined by [" | "], each part
    passed through [style_text] when its count is not zero.  The suffix is
    [" | {number of load failures} files failed to load"] passed through
    [style_text].  Under a styling that leaves text as it is, the summary
    reads ["{failed} failed | {skipped} skipped | {passed} passed"] and the
    suffix [" | {number of load failures} files failed to load"]. *)
Theorem testing_end_writes_summary_once
    (self : DefaultEventFormatter) (context : TestingContext) :
  let load_failures := get_file_load_failures context in
  let count_suffix :=
    style_text (" | " +:+ format_int (length load_failures)
                +:+ " files failed to load") COLOR_FAIL in
  (∃ before suffix,
     calls_since self (testing_end self context)
     = before ++ [write (summary context)] ++ suffix ++ [end_line]
     ∧ texts_written before = []
     ∧ (suffix ≠ [] ↔ load_failures ≠ [])
     ∧ (suffix = [] ∨ suffix = [write count_suffix]))
  ∧ texts_written (calls_since self (testing_end self context))
    = summary context
      :: match load_failures with
         | [] => []
         | _ :: _ => [count_suffix]
         end
  ∧ (let part (count : nat) word foreground :=
       if decide (count = 0) then format_int count +:+ " " +:+ word
       else style_text (format_int count +:+ " " +:+ word) foreground in
     summary context
     = part (get_failed_test_count context) "failed" COLOR_FAIL
       +:+ " | " +:+
       part (get_skipped_test_count context) "skipped" COLOR_SKIP
       +:+ " | " +:+
       part (get_passed_test_count context) "passed" COLOR_PASS)
  ∧ ((∀ text foreground, style_text text foreground = text) →
     summary context
     = format_int (get_failed_test_count context) +:+ " failed | "
       +:+ format_int (get_skipped_test_count context) +:+ " skipped | "
       +:+ format_int (get_passed_test_count context) +:+ " passed"
     ∧ count_suffix
       = " | " +:+ format_int (length load_failures)
         +:+ " files failed to load").
Proof.
  intros load_failures count_suffix.
  split; [|split; [|split; [|]]]; cycle 1.
  { rewrite testing_end_calls, !texts_written_app.
    rewrite !texts_written_fmap by done.
    subst count_suffix load_failures.
    destruct (get_file_load_failures context); simpl;
      destruct (get_failed_test_count context); simpl;
      by rewrite ?texts_written_fmap. }
  { unfold summary, message_part.
    by destruct (get_failed_test_count context),
                (get_skipped_test_count context),
                (get_passed_test_count context). }
  { intros Hplain. split; [by apply summary_plain | apply Hplain]. }
  exists ([write_break_line]
          ++ (write_load_failure <$> load_failures)
          ++ (write_result_failing <$> iter_failed_results context)
          ++ match get_failed_test_count context with
             | 0 => write_result_informal <$> iter_informal_results context
             | S _ => []
             end),
         (match load_failures with
          | [] => []
          | _ :: _ => [write count_suffix]
          end).
  subst count_suffix load_failures.
  split; [|split; [|split]].
  - rewrite testing_end_calls. by rewrite <- !app_assoc.
  - rewrite !texts_written_app, !texts_written_fmap by done.
    destruct (get_failed_test_count context); [|done].
    by rewrite texts_written_fmap.
  - by destruct (get_file_load_failures context).
  - destruct (get_file_load_failures context); [by left | by right].
Qed.

(** C3: at the end of the run the informal results are written iff the
    failed-test count is zero: then all of them are, in order; with a
    failed test none is.  The context is only read, so its informal
    results are the same afterwards. *)
Theorem informal_results_written_iff_no_failure
    (self : DefaultEventFormatter) (context : TestingContext) :
  informal_written (calls_since self (testing_end self context))
  = match get_failed_test_count context with
    | 0 => iter_informal_results context
    | S _ => []
    end
  ∧ ∀ result,
      result ∈ informal_written (calls_since self (testing_end self context))
      ↔ get_failed_test_count context = 0
        ∧ result ∈ iter_informal_results context.
Proof.
  assert (informal_written (calls_since self (testing_end self context))
          = match get_failed_test_count context with
            | 0 => iter_informal_results context
            | S _ => []
            end) as Hwritten.
  { rewrite testing_end_calls, !informal_written_app.
    rewrite !informal_written_fmap by done.
    destruct (get_file_load_failures context); simpl;
      destruct (get_failed_test_count context); simpl;
      by rewrite ?informal_written_informal, ?app_nil_r. }
  split; [done|].
  intros result. rewrite Hwritten.
  destruct (get_failed_test_count context).
  - split; [by intros ? | by intros [_ ?]].
  - split; [by intros ?%elem_of_nil | by intros [? _]].
Qed.

(** ** Rendering the file tree *)

Lemma call_sound self made :
  rendered_entries_sound self → rendered_entries_sound (call self made).
Proof. done. Qed.

Lemma foldl_call_sound {A} (made : A → WriterCall) items self :
  rendered_entries_sound self →
  rendered_entries_sound (foldl (λ self item, call self (made item)) self items).
Proof. by rewrite foldl_call. Qed.

(** Rendering an entry that is not in the set keeps the record sound. *)
Lemma render_and_add_sound self into rendered name :
  rendered_entries_sound self →
  rendered ∉ rendered_entries self →
  rendered_entries_sound (render_and_add self into rendered name).2.
Proof.
  intros [Hnodup Hrecorded] Hfresh. split; simpl.
  - apply NoDup_app. split; [done|]. split; [|apply NoDup_singleton].
    intros other Hother ->%list_elem_of_singleton. by apply Hfresh, Hrecorded.
  - intros other [Hother | ->%list_elem_of_singleton]%elem_of_app.
    + apply elem_of_union_l. by apply Hrecorded.
    + apply elem_of_union_r. by apply elem_of_singleton.
Qed.

(** The loop over the parents keeps the record sound, and only adds
    parents to the set. *)
Lemma render_parents_sound parents : ∀ into self,
  rendered_entries_sound self →
  let after := (foldl render_parent (into, self) parents).2 in
  rendered_entries_sound after
  ∧ ∀ rendered, rendered ∈ rendered_entries after →
                rendered ∈ rendered_entries self ∨ rendered ∈ parents.
Proof.
  induction parents as [|parent parents IH]; intros into self Hsound; simpl.
  - split; [done|]. by left.
  - unfold render_parent at 2.
    destruct (decide (parent ∈ rendered_entries self)) as [Hin|Hfresh].
    + destruct (IH into self Hsound) as [Hafter Honly].
      split; [done|].
      intros rendered Hrendered. destruct (Honly rendered Hrendered); [by left|].
      right. by right.
    + pose proof (render_and_add_sound self into parent None Hsound Hfresh)
        as Hparent.
      destruct (render_and_add self into parent None) as [into' self'] eqn:Hadd.
      destruct (IH into' self' Hparent) as [Hafter Honly].
      split; [done|].
      intros rendered Hrendered.
      destruct (Honly rendered Hrendered) as [Hself'|Hparents]; [|right; by right].
      unfold render_and_add in Hadd. injection Hadd as _ <-. simpl in Hself'.
      apply elem_of_union in Hself' as [Hself | ->%elem_of_singleton];
        [by left | right; left].
Qed.

Section Tree.
(** In a tree, a node is not one of its own parents. *)
Hypothesis iter_parents_proper : ∀ node : Entry, node ∉ iter_parents node.

Lemma _maybe_render_test_file_into_sound self into rendered name :
  rendered_entries_sound self →
  rendered_entries_sound
    (_maybe_render_test_file_into self into rendered name).2.
Proof.
  intros Hsound. unfold _maybe_render_test_file_into.
  destruct (decide (rendered ∉ rendered_entries self)) as [Hfresh|]; [|done].
  destruct (render_parents_sound (iter_parents rendered) into self Hsound)
    as [Hafter Honly].
  destruct (foldl render_parent (into, self) (iter_parents rendered))
    as [into' self'].
  apply render_and_add_sound; [done|].
  intros [Hself|Hparent]%Honly; [done|].
  by apply (iter_parents_proper rendered).
Qed.

Lemma handle_sound self event :
  rendered_entries_sound self → rendered_entries_sound (handle self event).
Proof.
  intros Hsound. destruct event as [context|file|result|file|context]; simpl.
  - done.
  - unfold file_load_done. destruct (is_loaded_with_failure file); [|done].
    pose proof (_maybe_render_test_file_into_sound self [] (entry file)
                  (Some (style_text (get_name (entry file)) COLOR_FAIL)) Hsound).
    by destruct (_maybe_render_test_file_into _ _ _ _).
  - unfold test_done. destruct (case_test_file result) as [test_file|]; [|done].
    pose proof (_maybe_render_test_file_into_sound self [] (entry test_file)
                  None Hsound).
    destruct (_maybe_render_test_file_into _ _ _ _).
    by repeat case_match.
  - unfold file_testing_done.
    pose proof (_maybe_render_test_file_into_sound self [] (entry file)
                  None Hsound).
    destruct (_maybe_render_test_file_into _ _ _ _) as [[|] ?]; done.
  - unfold testing_end. rewrite !foldl_call.
    by destruct (get_failed_test_count context), (get_file_load_failures context);
      rewrite ?foldl_call.
Qed.

Lemma handle_all_sound events : ∀ self,
  rendered_entries_sound self →
  rendered_entries_sound (foldl handle self events).
Proof.
  induction events as [|event events IH]; intros self Hsound; [done|].
  simpl. by apply IH, handle_sound.
Qed.

(** C9: over any sequence of events handled by a formatter, no entry of
    the discovery tree has its [render_into] hook called twice: the
    entries rendered so far are all different, and each of them is in
    [rendered_entries], where [_maybe_render_test_file_into] looks before
    it renders. *)
Theorem render_into_called_at_most_once
    (output_writer : list WriterCall) (events : list Event) :
  let self := foldl handle (new output_writer) events in
  NoDup (render_into_calls self)
  ∧ ∀ rendered, rendered ∈ render_into_calls self →
                rendered ∈ rendered_entries self.
Proof.
  apply handle_all_sound. split; [apply NoDup_nil_2|].
  by intros rendered ?%elem_of_nil.
Qed.

End Tree.

End DefaultFacts.

Lemma testing_end_writes_summary_once_witness :
  @Default.summary Default.plain_collaborators Default.example_context
  = "1 failed | 1 skipped | 3 passed"
  ∧ @Default.texts_written Default.plain_collaborators
      (Default.calls_since (Default.new [])
         (Default.testing_end (Default.new [])
            Default.example_context_with_load_failures))
    = ["0 failed | 0 skipped | 2 passed"; " | 2 files failed to load"].
Proof.
  split.
  - apply (proj2 (proj2 (proj2
      (@testing_end_writes_summary_once Default.plain_collaborators
         (Default.new []) Default.example_context)))).
    reflexivity.
  - apply (proj1 (proj2
      (@testing_end_writes_summary_once Default.plain_collaborators
         (Default.new []) Default.example_context_with_load_failures))).
Defined.

Lemma render_into_called_at_most_once_witness :
  NoDup (@Default.render_into_calls Default.plain_collaborators
           (foldl Default.handle (Default.new [])
              [Default.FileLoadDoneEvent (Default.example_file 6);
               Default.TestDoneEvent Default.example_failed_result;
               Default.FileTestingDoneEvent (Default.example_file 6);
               Default.FileTestingDoneEvent (Default.example_file 7)])).
Proof.
  apply (@render_into_called_at_most_once Default.plain_collaborators
           positive_parents_proper).
Defined.


(* ===================================================================== *)
(** * Further properties: Python strings *)
(* ===================================================================== *)

Section StringFacts.
Import Py.

Lemma string_app_cons c (s t : string) : String c s +:+ t = String c (s +:+ t).
Proof. reflexivity. Qed.

Lemma string_app_nil_r (s : string) : s +:+ "" = s.
Proof.
  induction s as [|c s IH]; [done|]. by rewrite string_app_cons, IH.
Qed.

Lemma string_app_length (s t : string) :
  String.length (s +:+ t) = String.length s + String.length t.
Proof.
  induction s as [|c s IH]; [done|]. rewrite string_app_cons. simpl. by rewrite IH.
Qed.

Lemma join_app (parts_1 parts_2 : list string) :
  join (parts_1 ++ parts_2) = join parts_1 +:+ join parts_2.
Proof.
  induction parts_1 as [|part parts_1 IH]; [done|].
  simpl. unfold join in *. simpl. by rewrite IH, string_app_assoc.
Qed.

Lemma join_snoc (parts : list string) (part : string) :
  join (parts ++ [part]) = join parts +:+ part.
Proof. rewrite join_app. unfold join at 2. simpl. by rewrite string_app_nil_r. Qed.

Lemma string_rev_app_spec (s acc : string) :
  String.rev_app s acc = String.rev s +:+ acc.
Proof.
  unfold String.rev. revert acc.
  induction s as [|c s IH]; intros acc; [done|].
  simpl. rewrite IH, (IH (String c "")). by rewrite string_app_assoc.
Qed.

Lemma string_rev_cons c (s : string) :
  String.rev (String c s) = String.rev s +:+ String c "".
Proof. unfold String.rev at 1. simpl. apply string_rev_app_spec. Qed.

Lemma string_rev_append (s t : string) :
  String.rev (s +:+ t) = String.rev t +:+ String.rev s.
Proof.
  induction s as [|c s IH].
  - simpl. by rewrite string_app_nil_r.
  - rewrite string_app_cons, !string_rev_cons, IH. by rewrite string_app_assoc.
Qed.

Lemma string_rev_length (s : string) :
  String.length (String.rev s) = String.length s.
Proof.
  induction s as [|c s IH]; [done|].
  rewrite string_rev_cons, string_app_length, IH. simpl. lia.
Qed.

Lemma startswith_nil (text : string) : startswith text "" = true.
Proof. by destruct text. Qed.

Lemma startswith_app_l (prefix : string) : ∀ text rest : string,
  (String.length prefix ≤ String.length text)%nat →
  startswith (text +:+ rest) prefix = startswith text prefix.
Proof.
  induction prefix as [|p prefix IH]; intros text rest Hlength.
  { by rewrite !startswith_nil. }
  destruct text as [|c text]; simpl in Hlength; [lia|].
  rewrite string_app_cons. simpl. rewrite IH by lia. done.
Qed.

Lemma startswith_app_self (prefix rest : string) :
  startswith (prefix +:+ rest) prefix = true.
Proof.
  induction prefix as [|p prefix IH]; [apply startswith_nil|].
  rewrite string_app_cons. simpl. by rewrite IH, bool_decide_eq_true_2.
Qed.

(** Whether a text ends with [suffix] is decided by its end alone. *)
Lemma endswith_app_r (text_1 text_2 suffix : string) :
  (String.length suffix ≤ String.length text_2)%nat →
  endswith (text_1 +:+ text_2) suffix = endswith text_2 suffix.
Proof.
  intros Hlength. unfold endswith. rewrite string_rev_append.
  apply startswith_app_l. by rewrite !string_rev_length.
Qed.

Lemma endswith_app_self (text suffix : string) :
  endswith (text +:+ suffix) suffix = true.
Proof. unfold endswith. rewrite string_rev_append. apply startswith_app_self. Qed.

End StringFacts.

(* ===================================================================== *)
(** * Further properties of core/output_writer.py *)
(* ===================================================================== *)

Section OutputWriterRuns.
Import Py OutputWriter.

Lemma perform_all_ind (P : OutputWriter → Prop) :
  (∀ self made, P self → P (perform self made).2) →
  ∀ calls self, P self → P (perform_all self calls).
Proof.
  intros Hstep calls.
  induction calls as [|made calls IH]; intros self Hself; [done|].
  simpl. by apply IH, Hstep.
Qed.

Lemma perform_all_app self calls_1 calls_2 :
  perform_all self (calls_1 ++ calls_2)
  = perform_all (perform_all self calls_1) calls_2.
Proof. apply foldl_app. Qed.

(** What a [write_break_line] call comes to, by the flag it looks at. *)
Lemma write_break_line_written self :
  _last_chunk_break_line self = false →
  write_break_line self
  = (true,
     {| _last_chunk_break_line := true;
        _last_write_ended_with_linebreak := false;
        file := file self
                ++ (if _last_write_ended_with_linebreak self
                    then [] else [LINE_BREAK])
                ++ [BREAK_LINE] |}).
Proof.
  intros Hlast. unfold write_break_line. rewrite Hlast.
  destruct (_last_write_ended_with_linebreak self); simpl; [done|].
  by rewrite <- app_assoc.
Qed.


(** Projections of a writer that is written out. *)
Ltac writer_cbn :=
  unfold file_content;
  cbn [fst snd file _last_chunk_break_line _last_write_ended_with_linebreak].

Lemma new_flags_sound file : flags_sound (new file).
Proof. by split. Qed.

Lemma perform_flags_sound self made :
  flags_sound self → flags_sound (perform self made).2.
Proof.
  intros [Hended Hbreak]. destruct made as [[|c s]|]; unfold perform.
  - exact (conj Hended Hbreak).
  - rewrite write_nonempty. split; writer_cbn; [|done].
    intros Hends. rewrite join_app, join_snoc, <- string_app_assoc.
    rewrite endswith_app_r; [done | simpl; lia].
  - destruct (_last_chunk_break_line self) eqn:Hlast.
    + rewrite write_break_line_refused by done.
      split; [exact Hended | intros _; by apply Hbreak].
    + rewrite write_break_line_written by done. split; writer_cbn; [done|].
      intros _. split; [done|].
      exists (file self
              ++ (if _last_write_ended_with_linebreak self then [] else [LINE_BREAK])).
      split; [by rewrite <- app_assoc|].
      destruct (_last_write_ended_with_linebreak self) eqn:Hends.
      * rewrite app_nil_r. by apply Hended.
      * rewrite join_snoc. apply endswith_app_self.
Qed.

Lemma perform_all_flags_sound file calls :
  flags_sound (perform_all (new file) calls).
Proof.
  apply perform_all_ind; [apply perform_flags_sound | apply new_flags_sound].
Qed.

(** The flag [_last_write_ended_with_linebreak] tells the truth: on a writer
    created on a file whose text does not end with a line break (an empty
    file, say), after any run of calls the flag is set exactly when the text
    written so far ends with a line break. *)
Theorem ended_flag_is_truthful (file : list string) (calls : list Call) :
  endswith (join file) LINE_BREAK = false →
  let self := perform_all (new file) calls in
  _last_write_ended_with_linebreak self
  = endswith (file_content self) LINE_BREAK.
Proof.
  intros Hfile. apply perform_all_ind; [|by symmetry].
  intros self [[|c s]|] Htruthful; unfold perform.
  - done.
  - rewrite write_nonempty. writer_cbn.
    rewrite join_app, join_snoc, <- string_app_assoc.
    rewrite endswith_app_r; [done | simpl; lia].
  - destruct (_last_chunk_break_line self) eqn:Hlast.
    + by rewrite write_break_line_refused.
    + rewrite write_break_line_written by done. writer_cbn.
      rewrite join_app, join_snoc, <- string_app_assoc.
      rewrite endswith_app_r; [done | vm_compute; lia].
Qed.

Lemma ended_flag_is_truthful_witness :
  _last_write_ended_with_linebreak
    (perform_all (new [])
       [call_write "abc"; call_write_break_line; call_write ("def" +:+ LINE_BREAK)])
  = endswith
      (file_content
         (perform_all (new [])
            [call_write "abc"; call_write_break_line;
             call_write ("def" +:+ LINE_BREAK)]))
      LINE_BREAK.
Proof.
  apply (ended_flag_is_truthful []
           [call_write "abc"; call_write_break_line;
            call_write ("def" +:+ LINE_BREAK)]).
  reflexivity.
Defined.

(** After [write_break_line], refused or not, the output ends with a
    separator that starts a line: on a writer created by [__new__], after any
    run of calls, a [write_break_line] leaves the text [before] followed by
    [BREAK_LINE], where [before] ends with a line break.  The flag
    [_last_chunk_break_line] is then set and the other flag is not. *)
Theorem write_break_line_leaves_separator_on_new_line
    (file : list string) (calls : list Call) :
  let after := (write_break_line (perform_all (new file) calls)).2 in
  _last_chunk_break_line after = true
  ∧ _last_write_ended_with_linebreak after = false
  ∧ ∃ before,
      file_content after = before +:+ BREAK_LINE
      ∧ endswith before LINE_BREAK = true.
Proof.
  pose proof (perform_flags_sound _ call_write_break_line
                (perform_all_flags_sound file calls)) as [_ Hbreak].
  simpl in Hbreak. intros after. subst after.
  pose proof (write_break_line_sets_flag (perform_all (new file) calls)) as Hflag.
  destruct (Hbreak Hflag) as (Hended & chunks & Hfile & Hbefore).
  split; [done|]. split; [done|].
  exists (join chunks). split; [|done].
  unfold file_content. by rewrite Hfile, join_snoc.
Qed.

(** Every text starts a line: on a writer created by [__new__], after any
    run of calls, a [write] of a non-empty text appends to the text written
    so far at most one line break and then the text, and either what comes
    before the text ends with a line break or the text starts with one. *)
Theorem write_starts_on_new_line
    (file : list string) (calls : list Call) (c : ascii) (s : string) :
  let self := perform_all (new file) calls in
  let text := String c s in
  ∃ before,
    file_content (write self text).2 = before +:+ text
    ∧ (before = file_content self ∨ before = file_content self +:+ LINE_BREAK)
    ∧ (endswith before LINE_BREAK = true ∨ startswith text LINE_BREAK = true).
Proof.
  intros self text.
  destruct (perform_all_flags_sound file calls) as [Hended _]. fold self in Hended.
  subst text. rewrite write_nonempty. writer_cbn.
  rewrite join_app, join_snoc. fold (file_content self).
  destruct (_last_write_ended_with_linebreak self) eqn:Hends; cbn [negb andb].
  - exists (file_content self). split; [reflexivity|]. split; [by left|].
    left. by apply Hended.
  - destruct (startswith (String c s) LINE_BREAK) eqn:Hstarts; cbn [negb].
    + exists (file_content self). split; [reflexivity|]. split; [by left | by right].
    + exists (file_content self +:+ LINE_BREAK).
      split; [by rewrite string_app_assoc|]. split; [by right|].
      left. apply endswith_app_self.
Qed.

Lemma startswith_LINE_BREAK_app (text rest : string) :
  startswith text LINE_BREAK = true →
  startswith (text +:+ rest) LINE_BREAK = true.
Proof.
  intros Hstarts. destruct text as [|c text]; [done|].
  rewrite startswith_app_l; [done | simpl; lia].
Qed.

(** A writer created on an empty file puts a line break first: after any
    run of calls the text written is empty or starts with a line break. *)
Theorem output_begins_with_line_break (calls : list Call) :
  let self := perform_all (new []) calls in
  file_content self = "" ∨ startswith (file_content self) LINE_BREAK = true.
Proof.
  cut (let self := perform_all (new []) calls in
       flags_sound self
       ∧ (file_content self = ""
          ∨ startswith (file_content self) LINE_BREAK = true)).
  { intros Hboth self. apply Hboth. }
  apply perform_all_ind; [|split; [apply new_flags_sound | by left]].
  intros self made [Hsound Hbegins].
  split; [by apply perform_flags_sound|].
  destruct Hsound as [Hended _].
  assert (file_content self = "" → _last_write_ended_with_linebreak self = false)
    as Hempty.
  { intros Hcontent. destruct (_last_write_ended_with_linebreak self); [|done].
    rewrite Hcontent in Hended. by specialize (Hended eq_refl). }
  destruct made as [[|c s]|]; unfold perform.
  - done.
  - rewrite write_nonempty. writer_cbn. rewrite join_app, join_snoc.
    fold (file_content self). right.
    destruct Hbegins as [Hcontent|Hstarts];
      [|by apply startswith_LINE_BREAK_app].
    rewrite Hcontent, (Hempty Hcontent). cbn [negb andb].
    destruct (startswith (String c s) LINE_BREAK) eqn:Hstarts; cbn [negb].
    + exact Hstarts.
    + apply (startswith_app_self LINE_BREAK).
  - destruct (_last_chunk_break_line self) eqn:Hlast.
    + by rewrite write_break_line_refused.
    + rewrite write_break_line_written by done. writer_cbn.
      rewrite join_app, join_snoc. fold (file_content self). right.
      destruct Hbegins as [Hcontent|Hstarts];
        [|by apply startswith_LINE_BREAK_app].
      rewrite Hcontent, (Hempty Hcontent).
      apply (startswith_app_self LINE_BREAK).
Qed.

(** The returned value reports whether the file was written to: a call
    never changes what the file has received before; it returns [True]
    exactly when it hands something to the file, and when it returns [False]
    the writer is as it was. *)
Theorem returned_value_reports_writing (self : OutputWriter) (made : Call) :
  file self `prefix_of` file (perform self made).2
  ∧ ((perform self made).1 = true ↔ file (perform self made).2 ≠ file self)
  ∧ ((perform self made).1 = false → (perform self made).2 = self).
Proof.
  assert (∀ inserted chunk, file self ++ inserted ++ [chunk] ≠ file self)
    as Hgrows.
  { intros inserted chunk Hsame%(f_equal length).
    rewrite !length_app in Hsame. simpl in Hsame. lia. }
  destruct made as [[|c s]|]; unfold perform.
  - split; [done|]. split; [|done]. by split.
  - rewrite write_nonempty. writer_cbn.
    split; [by apply prefix_app_r|]. split; [|done]. split; [|done].
    intros _. apply Hgrows.
  - destruct (_last_chunk_break_line self) eqn:Hlast.
    + rewrite write_break_line_refused by done.
      split; [done|]. split; [|done]. by split.
    + rewrite write_break_line_written by done. writer_cbn.
      split; [by apply prefix_app_r|]. split; [|done]. split; [|done].
      intros _. apply Hgrows.
Qed.

(** Once the last chunk is a break line, break lines and writes of the empty
    string are all refused. *)
Lemma perform_all_refused calls : ∀ self,
  _last_chunk_break_line self = true →
  Forall (λ made, is_break_line_or_empty made = true) calls →
  perform_all self calls = self.
Proof.
  induction calls as [|made calls IH]; intros self Hlast Hcalls; [done|].
  apply Forall_cons in Hcalls as [Hmade Hcalls].
  assert ((perform self made).2 = self) as Hsame.
  { destruct made as [[|c s]|]; [done | done |].
    unfold perform. by rewrite write_break_line_refused. }
  unfold perform_all in *. simpl. rewrite Hsame. by apply IH.
Qed.

(** Break lines collapse: a run of calls made of [write_break_line] calls
    and writes of the empty string, with at least one [write_break_line],
    leaves the writer as a single [write_break_line] does. *)
Theorem break_lines_collapse (self : OutputWriter) (calls : list Call) :
  Forall (λ made, is_break_line_or_empty made = true) calls →
  Exists (λ made, is_break_line made = true) calls →
  perform_all self calls = (write_break_line self).2.
Proof.
  revert self.
  induction calls as [|made calls IH]; intros self Hcalls Hbreak.
  { by apply Exists_nil in Hbreak. }
  apply Forall_cons in Hcalls as [Hmade Hcalls].
  destruct made as [[|c s]|].
  - apply Exists_cons in Hbreak as [Hbreak|Hbreak]; [done|].
    by apply IH.
  - done.
  - change (perform_all (write_break_line self).2 calls
            = (write_break_line self).2).
    apply perform_all_refused; [apply write_break_line_sets_flag | done].
Qed.

Lemma break_lines_collapse_witness :
  perform_all (new ["abc"])
    [call_write ""; call_write_break_line; call_write "";
     call_write_break_line; call_write_break_line]
  = (write_break_line (new ["abc"])).2.
Proof.
  apply break_lines_collapse.
  - repeat constructor.
  - apply Exists_cons_tl, Exists_cons_hd. reflexivity.
Defined.


End OutputWriterRuns.

(* ===================================================================== *)
(** * Further properties of core/event_handling/default.py *)
(* ===================================================================== *)

Section DefaultRuns.
Import Py Default.
Context `{Collaborators}.

(** ** Rendering the tree *)

Lemma filter_fresh_after_add (rendered : gset Entry) (parent : Entry)
    (parents : list Entry) :
  parent ∉ parents →
  filter (λ other, other ∉ rendered ∪ {[parent]}) parents
  = filter (λ other, other ∉ rendered) parents.
Proof.
  induction parents as [|other parents IH]; intros Hfresh; [done|].
  apply not_elem_of_cons in Hfresh as [Hother Hfresh].
  destruct (decide (other ∈ rendered)) as [Hin|Hout].
  - rewrite !filter_cons_False; [by apply IH | by intros [] | ].
    intros Hnot. apply Hnot, elem_of_union_l, Hin.
  - rewrite !filter_cons_True; [by rewrite IH | done | ].
    intros [Hin | Hsame%elem_of_singleton]%elem_of_union; [done|].
    by apply Hother.
Qed.

Lemma foldl_render_parent_cons into self parent parents :
  foldl render_parent (into, self) (parent :: parents)
  = foldl render_parent
      (if decide (parent ∈ rendered_entries self) then (into, self)
       else render_and_add self into parent None)
      parents.
Proof. reflexivity. Qed.

(** The loop over the parents: the writer is left alone, exactly the
    parents are added to the set, and hook calls are only added. *)
Lemma render_parents_frame parents : ∀ into self,
  let after := (foldl render_parent (into, self) parents).2 in
  output_writer after = output_writer self
  ∧ (∀ other, other ∈ rendered_entries after
              ↔ other ∈ rendered_entries self ∨ other ∈ parents)
  ∧ render_into_calls self `prefix_of` render_into_calls after.
Proof.
  induction parents as [|parent parents IH]; intros into self.
  { split; [done|]. split; [|done]. intros other. rewrite elem_of_nil. tauto. }
  cbv zeta. rewrite foldl_render_parent_cons.
  destruct (decide (parent ∈ rendered_entries self)) as [Hin|Hfresh].
  - destruct (IH into self) as (Hwriter & Hentries & Hcalls).
    split; [done|]. split; [|done].
    intros other. rewrite Hentries, elem_of_cons.
    split; [tauto|]. intros [?|[->|?]]; tauto.
  - destruct (IH (render_into parent into None)
                (render_and_add self into parent None).2)
      as (Hwriter & Hentries & Hcalls).
    split; [done|]. split.
    + intros other. rewrite Hentries, elem_of_cons. simpl.
      rewrite elem_of_union, elem_of_singleton. tauto.
    + simpl in Hcalls. by apply prefix_app_l in Hcalls.
Qed.

(** What [_maybe_render_test_file_into] leaves alone and what it adds. *)
Lemma _maybe_render_test_file_into_frame self into rendered name :
  let after := (_maybe_render_test_file_into self into rendered name).2 in
  output_writer after = output_writer self
  ∧ rendered ∈ rendered_entries after
  ∧ (∀ other, other ∈ rendered_entries after
              ↔ other ∈ rendered_entries self
                ∨ ((rendered ∉ rendered_entries self)
                   ∧ (other ∈ iter_parents rendered ∨ other = rendered)))
  ∧ render_into_calls self `prefix_of` render_into_calls after.
Proof.
  unfold _maybe_render_test_file_into.
  destruct (decide (rendered ∉ rendered_entries self)) as [Hfresh|Hin].
  - destruct (render_parents_frame (iter_parents rendered) into self)
      as (Hwriter & Hentries & Hcalls).
    destruct (foldl render_parent (into, self) (iter_parents rendered))
      as [into' self'].
    simpl in *. split; [done|]. split; [|split].
    + apply elem_of_union_r. by apply elem_of_singleton.
    + intros other. rewrite elem_of_union, elem_of_singleton, Hentries. tauto.
    + by apply prefix_app_r.
  - simpl. split; [done|]. split; [by apply dec_stable|]. split; [|done].
    intros other. tauto.
Qed.

(** The loop over parents that are all different: the hooks of the parents
    not yet rendered are called, in the order of the parents. *)
Lemma render_parents_order parents : ∀ into self,
  NoDup parents →
  let fresh := filter (λ parent, parent ∉ rendered_entries self) parents in
  let after := foldl render_parent (into, self) parents in
  after.1 = foldl (λ into parent, render_into parent into None) into fresh
  ∧ render_into_calls after.2 = render_into_calls self ++ fresh.
Proof.
  induction parents as [|parent parents IH]; intros into self Hnodup; simpl.
  { by rewrite app_nil_r. }
  apply NoDup_cons in Hnodup as [Hfresh Hnodup].
  destruct (decide (parent ∈ rendered_entries self)) as [Hin|Hout].
  - rewrite filter_cons_False by (by intros []). by apply IH.
  - rewrite filter_cons_True by done.
    destruct (IH (render_into parent into None)
                (render_and_add self into parent None).2 Hnodup)
      as [Hparts Hcalls].
    unfold render_and_add in *. cbn [fst snd rendered_entries render_into_calls] in *.
    rewrite filter_fresh_after_add in Hparts, Hcalls by done.
    split; [exact Hparts|]. rewrite Hcalls. by rewrite <- app_assoc.
Qed.

(** After [_maybe_render_test_file_into] the entry is in
    [rendered_entries], which has lost nothing, and the writer has not been
    touched; when the entry was not in the set before, all of its parents
    are in it now. *)
Theorem maybe_render_marks_entry
    (self : DefaultEventFormatter) (into : list string)
    (rendered : Entry) (name : option string) :
  let after := (_maybe_render_test_file_into self into rendered name).2 in
  rendered ∈ rendered_entries after
  ∧ rendered_entries self ⊆ rendered_entries after
  ∧ output_writer after = output_writer self
  ∧ (rendered ∉ rendered_entries self →
     ∀ parent, parent ∈ iter_parents rendered → parent ∈ rendered_entries after).
Proof.
  destruct (_maybe_render_test_file_into_frame self into rendered name)
    as (Hwriter & Hmarked & Hentries & _).
  intros after. split; [done|]. split; [|split; [done|]].
  - intros other Hother. apply Hentries. by left.
  - intros Hfresh parent Hparent. apply Hentries. right. split; [done | by left].
Qed.

(** Asking again changes nothing: once [_maybe_render_test_file_into] has
    been called for an entry, a further call for that entry, from the state
    the first call left, returns the parts it is given and leaves the
    formatter as it is. *)
Theorem maybe_render_is_idempotent
    (self : DefaultEventFormatter) (into into' : list string)
    (rendered : Entry) (name name' : option string) :
  let after := (_maybe_render_test_file_into self into rendered name).2 in
  _maybe_render_test_file_into after into' rendered name' = (into', after).
Proof.
  intros after.
  destruct (_maybe_render_test_file_into_frame self into rendered name)
    as (_ & Hmarked & _). fold after in Hmarked.
  unfold _maybe_render_test_file_into at 1.
  by rewrite decide_False by (by intros Hnot).
Qed.

(** What one call renders, and in which order.  For an entry that is not in
    [rendered_entries] and whose parents are all different, the hooks are
    called for the parents that are not in the set, in the order of
    [iter_parents] (root first), and then for the entry; the parts returned
    are the parts rendered in that order, the entry under the name given. *)
Theorem maybe_render_calls_in_order
    (self : DefaultEventFormatter) (into : list string)
    (rendered : Entry) (name : option string) :
  NoDup (iter_parents rendered) →
  rendered ∉ rendered_entries self →
  let fresh :=
    filter (λ parent, parent ∉ rendered_entries self) (iter_parents rendered) in
  let result := _maybe_render_test_file_into self into rendered name in
  render_into_calls result.2 = render_into_calls self ++ fresh ++ [rendered]
  ∧ result.1
    = render_into rendered
        (foldl (λ into parent, render_into parent into None) into fresh) name.
Proof.
  intros Hnodup Hfresh.
  destruct (render_parents_order (iter_parents rendered) into self Hnodup)
    as [Hparts Hcalls].
  unfold _maybe_render_test_file_into. rewrite decide_True by done.
  destruct (foldl render_parent (into, self) (iter_parents rendered))
    as [into' self'].
  simpl in *. rewrite Hcalls, Hparts. by rewrite <- app_assoc.
Qed.

(** ** Over a run of events *)

(** The handlers that render: what they do is to call
    [_maybe_render_test_file_into] for the entry of the event and then to
    write at most one line; only [file_testing_done] may write none. *)
Lemma handle_rendering self event rendered :
  rendered_by event = Some rendered →
  ∃ name lines,
    (length lines ≤ 1)%nat
    ∧ match event with
      | FileTestingDoneEvent _ => True
      | _ => length lines = 1
      end
    ∧ (rendered ∈ rendered_entries self →
       match event with
       | FileTestingDoneEvent _ => lines = []
       | _ => True
       end)
    ∧ handle self event
      = let after := (_maybe_render_test_file_into self [] rendered name).2 in
        {| rendered_entries := rendered_entries after;
           output_writer := output_writer self ++ (write_line <$> lines);
           render_into_calls := render_into_calls after |}.
Proof.
  intros Hrendered.
  destruct event as [context|file|result|file|context]; simpl in Hrendered;
    try discriminate Hrendered.
  - destruct (is_loaded_with_failure file) eqn:Hfailure; [|done].
    injection Hrendered as <-.
    pose proof (_maybe_render_test_file_into_frame self [] (entry file)
                  (Some (style_text (get_name (entry file)) COLOR_FAIL)))
      as (Hwriter & _).
    simpl. unfold file_load_done. rewrite Hfailure.
    destruct (_maybe_render_test_file_into self [] (entry file) _)
      as [message_parts after] eqn:Hmaybe.
    exists (Some (style_text (get_name (entry file)) COLOR_FAIL)),
           [join message_parts].
    rewrite Hmaybe. simpl in *. unfold call. by rewrite Hwriter.
  - destruct (case_test_file result) as [test_file|] eqn:Hfile; [|done].
    injection Hrendered as <-.
    pose proof (_maybe_render_test_file_into_frame self [] (entry test_file) None)
      as (Hwriter & _).
    simpl. unfold test_done. rewrite Hfile.
    destruct (_maybe_render_test_file_into self [] (entry test_file) None)
      as [message_parts after] eqn:Hmaybe.
    set (choice := if is_skipped result then _ else _).
    destruct choice as [keyword foreground].
    eexists None, [_]. rewrite Hmaybe.
    split; [done|]. split; [done|]. split; [done|].
    simpl in *. by rewrite <- Hwriter.
  - injection Hrendered as <-.
    pose proof (_maybe_render_test_file_into_frame self [] (entry file) None)
      as (Hwriter & _).
    simpl. unfold file_testing_done.
    destruct (_maybe_render_test_file_into self [] (entry file) None)
      as [message_parts after] eqn:Hmaybe.
    destruct message_parts as [|part message_parts].
    + exists None, []. rewrite Hmaybe. simpl in *.
      split; [lia|]. split; [done|]. split; [done|].
      rewrite app_nil_r, <- Hwriter. by destruct after.
    + exists None, [join (part :: message_parts)]. rewrite Hmaybe. simpl in *.
      split; [done|]. split; [done|]. split; [|unfold call; by rewrite Hwriter].
      intros Hin. unfold _maybe_render_test_file_into in Hmaybe.
      rewrite decide_False in Hmaybe by (by intros Hnot). done.
Qed.

(** The handlers that do not render leave the record of rendering alone and
    only add calls on the writer. *)
Lemma handle_not_rendering self event :
  rendered_by event = None →
  rendered_entries (handle self event) = rendered_entries self
  ∧ render_into_calls (handle self event) = render_into_calls self
  ∧ ∃ calls, output_writer (handle self event) = output_writer self ++ calls.
Proof.
  intros Hrendered.
  destruct event as [context|file|result|file|context]; simpl in *;
    try discriminate Hrendered.
  - split; [done|]. split; [done|]. eexists. unfold file_registration_done, call.
    simpl. by rewrite <- app_assoc.
  - unfold file_load_done. destruct (is_loaded_with_failure file); [done|].
    split; [done|]. split; [done|]. exists []. by rewrite app_nil_r.
  - unfold test_done. destruct (case_test_file result); [done|].
    split; [done|]. split; [done|]. exists []. by rewrite app_nil_r.
  - unfold testing_end. rewrite !foldl_call.
    destruct (get_failed_test_count context),
             (get_file_load_failures context);
      rewrite ?foldl_call; simpl;
      (split; [done|]); (split; [done|]);
      rewrite <- ?app_assoc; by eexists.
Qed.

Lemma handle_grows self event :
  output_writer self `prefix_of` output_writer (handle self event)
  ∧ render_into_calls self `prefix_of` render_into_calls (handle self event)
  ∧ rendered_entries self ⊆ rendered_entries (handle self event).
Proof.
  destruct (rendered_by event) as [rendered|] eqn:Hrendered.
  - destruct (handle_rendering self event rendered Hrendered)
      as (name & lines & _ & _ & _ & ->).
    destruct (_maybe_render_test_file_into_frame self [] rendered name)
      as (_ & _ & Hentries & Hcalls).
    simpl. split; [by apply prefix_app_r|]. split; [done|].
    intros other Hother. apply Hentries. by left.
  - destruct (handle_not_rendering self event Hrendered)
      as (-> & -> & calls & ->).
    split; [by apply prefix_app_r|]. done.
Qed.

Lemma handlers_only_add_aux events : ∀ self,
  rendered_entries self ⊆ rendered_entries (foldl handle self events).
Proof.
  induction events as [|event events IH]; intros self; [done|].
  simpl. destruct (handle_grows self event) as (_ & _ & Hentries).
  etrans; [exact Hentries | apply IH].
Qed.

(** The formatter only adds: over any run of events the calls made on the
    writer and the hook calls made so far stay as they are, with new ones
    after them, and no entry leaves [rendered_entries]. *)
Theorem handlers_only_add
    (self : DefaultEventFormatter) (events : list Event) :
  let after := foldl handle self events in
  output_writer self `prefix_of` output_writer after
  ∧ render_into_calls self `prefix_of` render_into_calls after
  ∧ rendered_entries self ⊆ rendered_entries after.
Proof.
  revert self. induction events as [|event events IH]; intros self; [done|].
  simpl. destruct (handle_grows self event) as (Hwriter & Hcalls & Hentries).
  destruct (IH (handle self event)) as (Hwriter' & Hcalls' & Hentries').
  split; [by etrans|]. split; [by etrans|]. by etrans.
Qed.

(** How many lines an event writes.  [file_load_done] for a file loaded
    without failure and [test_done] for a result without test file change
    nothing at all; with a failure, or a test file, they make exactly one
    call, a [write_line], whatever part of the tree is rendered with it.
    [file_testing_done] makes at most one call, a [write_line], and none when
    the entry of the file is already in [rendered_entries]. *)
Theorem lines_written_by_event
    (self : DefaultEventFormatter) (event : Event) :
  match event with
  | FileLoadDoneEvent _ | TestDoneEvent _ =>
      match rendered_by event with
      | None => handle self event = self
      | Some _ =>
          ∃ line, calls_since self (handle self event) = [write_line line]
      end
  | FileTestingDoneEvent file =>
      (calls_since self (handle self event) = []
       ∨ ∃ line, calls_since self (handle self event) = [write_line line])
      ∧ (entry file ∈ rendered_entries self → handle self event = self)
  | FileRegistrationDoneEvent _ | TestingEndEvent _ => True
  end.
Proof.
  destruct event as [context|file|result|file|context]; [done| | | |done].
  - destruct (rendered_by (FileLoadDoneEvent file)) as [rendered|] eqn:Hrendered.
    + destruct (handle_rendering self _ rendered Hrendered)
        as (name & lines & _ & Hone & _ & ->).
      destruct lines as [|line [|]]; try done. exists line.
      unfold calls_since. simpl. by rewrite drop_app_length.
    + simpl in *. unfold file_load_done.
      by destruct (is_loaded_with_failure file).
  - destruct (rendered_by (TestDoneEvent result)) as [rendered|] eqn:Hrendered.
    + destruct (handle_rendering self _ rendered Hrendered)
        as (name & lines & _ & Hone & _ & ->).
      destruct lines as [|line [|]]; try done. exists line.
      unfold calls_since. simpl. by rewrite drop_app_length.
    + simpl in *. unfold test_done.
      by destruct (case_test_file result).
  - split.
    + destruct (handle_rendering self (FileTestingDoneEvent file) (entry file) eq_refl)
        as (name & lines & Hlength & _ & _ & ->).
      unfold calls_since. simpl. rewrite drop_app_length.
      destruct lines as [|line [|]]; [by left | right; by exists line |].
      simpl in Hlength. lia.
    + intros Hin. simpl. unfold file_testing_done, _maybe_render_test_file_into.
      by rewrite decide_False by (by intros Hnot).
Qed.

(** Once an event has rendered the entry of a file, [file_testing_done] for
    that file writes nothing and changes nothing, however many events were
    handled in between. *)
Theorem file_testing_done_after_rendering
    (self : DefaultEventFormatter) (events later : list Event)
    (event : Event) (file : TestFile) :
  rendered_by event = Some (entry file) →
  let after := foldl handle self (events ++ event :: later) in
  file_testing_done after file = after.
Proof.
  intros Hrendered after.
  assert (entry file ∈ rendered_entries after) as Hin.
  { subst after. rewrite foldl_app. simpl.
    apply (handlers_only_add_aux later (handle (foldl handle self events) event)).
    destruct (handle_rendering (foldl handle self events) event _ Hrendered)
      as (name & lines & _ & _ & _ & ->).
    simpl.
    by destruct (_maybe_render_test_file_into_frame
                   (foldl handle self events) [] (entry file) name)
      as (_ & Hmarked & _). }
  unfold file_testing_done, _maybe_render_test_file_into.
  by rewrite decide_False by (by intros Hnot).
Qed.

Lemma omap_fmap_None {A B C} (f : B → option C) (g : A → B) (items : list A) :
  (∀ item, f (g item) = None) → omap f (g <$> items) = [].
Proof.
  intros Hnone. induction items as [|item items IH]; [done|].
  change (omap f (g item :: (g <$> items)) = []).
  change (match f (g item) with
          | Some y => y :: omap f (g <$> items)
          | None => omap f (g <$> items)
          end = []).
  by rewrite Hnone.
Qed.

Lemma omap_fmap_Some {A B} (f : B → option A) (g : A → B) (items : list A) :
  (∀ item, f (g item) = Some item) → omap f (g <$> items) = items.
Proof.
  intros Hsome. induction items as [|item items IH]; [done|].
  change (match f (g item) with
          | Some y => y :: omap f (g <$> items)
          | None => omap f (g <$> items)
          end = item :: items).
  by rewrite Hsome, IH.
Qed.

(** At the end of the run every load failure and then every failed result
    is written, once each and in the order of the context, right after the
    opening break line and before anything else; the last call is
    [end_line].  [testing_end] renders no entry of the tree. *)
Theorem testing_end_reports_failures_in_order
    (self : DefaultEventFormatter) (context : TestingContext) :
  let calls := calls_since self (testing_end self context) in
  (∃ rest,
     calls = [write_break_line]
             ++ (write_load_failure <$> get_file_load_failures context)
             ++ (write_result_failing <$> iter_failed_results context)
             ++ rest
     ∧ load_failures_written rest = []
     ∧ failing_written rest = []
     ∧ last rest = Some end_line)
  ∧ load_failures_written calls = get_file_load_failures context
  ∧ failing_written calls = iter_failed_results context
  ∧ rendered_entries (testing_end self context) = rendered_entries self
  ∧ render_into_calls (testing_end self context) = render_into_calls self.
Proof.
  intros calls. subst calls. rewrite testing_end_calls.
  set (informal := match get_failed_test_count context with
                   | 0 => write_result_informal <$> iter_informal_results context
                   | S _ => []
                   end).
  set (suffix := match get_file_load_failures context with
                 | [] => []
                 | _ :: _ => [write (load_failure_suffix (get_file_load_failures context))]
                 end).
  assert (load_failures_written informal = [] ∧ failing_written informal = [])
    as [Hinformal_1 Hinformal_2].
  { subst informal. destruct (get_failed_test_count context); [|done].
    split; by apply omap_fmap_None. }
  assert (load_failures_written suffix = [] ∧ failing_written suffix = [])
    as [Hsuffix_1 Hsuffix_2].
  { subst suffix. by destruct (get_file_load_failures context). }
  assert (load_failures_written
            (informal ++ [write (summary context)] ++ suffix ++ [end_line]) = []
          ∧ failing_written
              (informal ++ [write (summary context)] ++ suffix ++ [end_line]) = [])
    as [Hrest_1 Hrest_2].
  { unfold load_failures_written, failing_written in *.
    rewrite !omap_app, Hinformal_1, Hinformal_2, Hsuffix_1, Hsuffix_2. done. }
  split; [|split; [|split]].
  - exists (informal ++ [write (summary context)] ++ suffix ++ [end_line]).
    split; [done|]. split; [done|]. split; [done|].
    rewrite !app_assoc. apply last_snoc.
  - unfold load_failures_written in *.
    rewrite (omap_app _ [write_break_line]),
      (omap_app _ (write_load_failure <$> _)),
      (omap_app _ (write_result_failing <$> _)), Hrest_1.
    rewrite (omap_fmap_Some _ write_load_failure) by done.
    rewrite (omap_fmap_None _ write_result_failing) by done.
    simpl. by rewrite app_nil_r.
  - unfold failing_written in *.
    rewrite (omap_app _ [write_break_line]),
      (omap_app _ (write_load_failure <$> _)),
      (omap_app _ (write_result_failing <$> _)), Hrest_2.
    rewrite (omap_fmap_None _ write_load_failure) by done.
    rewrite (omap_fmap_Some _ write_result_failing) by done.
    simpl. by rewrite app_nil_r.
  - destruct (handle_not_rendering self (TestingEndEvent context) eq_refl)
      as (Hentries & Hcalls & _).
    done.
Qed.

(** ** Parents first *)

Lemma render_and_add_in_order self into rendered name :
  rendered_in_order self →
  (∀ parent, parent ∈ iter_parents rendered → parent ∈ rendered_entries self) →
  rendered_in_order (render_and_add self into rendered name).2.
Proof.
  intros [Hexact Hfirst] Hparents. split; simpl.
  - intros other. split.
    + intros [Hin | ->%elem_of_singleton]%elem_of_union; apply elem_of_app.
      * left. by apply Hexact.
      * right. by apply list_elem_of_singleton.
    + intros [Hin | ->%list_elem_of_singleton]%elem_of_app; apply elem_of_union.
      * left. by apply Hexact.
      * right. by apply elem_of_singleton.
  - intros before other after Hcalls parent Hparent.
    destruct after as [|last after _] using rev_ind.
    + apply app_inj_tail in Hcalls as [<- <-].
      by apply Hexact, Hparents.
    + rewrite app_comm_cons, app_assoc in Hcalls.
      apply app_inj_tail in Hcalls as [Hcalls _].
      by apply (Hfirst before other after).
Qed.

Lemma render_parents_in_order (Hpath : is_path_tree) node todo :
  ∀ done into self,
    iter_parents node = done ++ todo →
    (∀ parent, parent ∈ done → parent ∈ rendered_entries self) →
    rendered_in_order self →
    let after := (foldl render_parent (into, self) todo).2 in
    rendered_in_order after
    ∧ ∀ parent, parent ∈ done ++ todo → parent ∈ rendered_entries after.
Proof.
  induction todo as [|parent todo IH]; intros done into self Hiter Hdone Hself.
  { simpl. split; [done|]. intros parent. rewrite app_nil_r. apply Hdone. }
  cbv zeta. rewrite foldl_render_parent_cons.
  pose proof (Hpath _ _ _ _ Hiter) as Hparents.
  assert (done ++ parent :: todo = (done ++ [parent]) ++ todo) as Hsplit
    by (by rewrite <- app_assoc).
  rewrite Hsplit in *.
  destruct (decide (parent ∈ rendered_entries self)) as [Hin|Hfresh].
  - apply (IH (done ++ [parent]) into self Hiter); [|done].
    intros other [Hother | ->%list_elem_of_singleton]%elem_of_app; [|done].
    by apply Hdone.
  - apply (IH (done ++ [parent]) (render_into parent into None)
              (render_and_add self into parent None).2 Hiter).
    + intros other Hother. simpl. apply elem_of_union.
      apply elem_of_app in Hother as [Hother | ->%list_elem_of_singleton].
      * left. by apply Hdone.
      * right. by apply elem_of_singleton.
    + apply render_and_add_in_order; [done|].
      intros other Hother. apply Hdone. by rewrite <- Hparents.
Qed.

Lemma _maybe_render_test_file_into_in_order (Hpath : is_path_tree)
    self into rendered name :
  rendered_in_order self →
  rendered_in_order (_maybe_render_test_file_into self into rendered name).2.
Proof.
  intros Hself. unfold _maybe_render_test_file_into.
  destruct (decide (rendered ∉ rendered_entries self)) as [Hfresh|]; [|done].
  destruct (render_parents_in_order Hpath rendered (iter_parents rendered)
              [] into self eq_refl) as [Hafter Hparents]; [|done|].
  { by intros parent ?%elem_of_nil. }
  destruct (foldl render_parent (into, self) (iter_parents rendered))
    as [into' self'].
  by apply render_and_add_in_order.
Qed.

Lemma handle_in_order (Hpath : is_path_tree) self event :
  rendered_in_order self → rendered_in_order (handle self event).
Proof.
  intros Hself.
  destruct (rendered_by event) as [rendered|] eqn:Hrendered.
  - destruct (handle_rendering self event rendered Hrendered)
      as (name & lines & _ & _ & _ & ->).
    exact (_maybe_render_test_file_into_in_order Hpath self [] rendered name Hself).
  - destruct (handle_not_rendering self event Hrendered) as (Hentries & Hcalls & _).
    unfold rendered_in_order. by rewrite Hentries, Hcalls.
Qed.

Lemma new_in_order output_writer : rendered_in_order (new output_writer).
Proof.
  split; simpl.
  - intros rendered. by rewrite elem_of_empty, elem_of_nil.
  - intros before rendered after Hcalls. by destruct before.
Qed.

Lemma handle_all_in_order (Hpath : is_path_tree) events : ∀ self,
  rendered_in_order self → rendered_in_order (foldl handle self events).
Proof.
  induction events as [|event events IH]; intros self Hself; [done|].
  simpl. by apply IH, handle_in_order.
Qed.

(** Parents first: when [iter_parents] gives the path from the root, then
    over any run of events handled by a new formatter the hooks are called
    parents first (wherever an entry stands among the hook calls, all of its
    parents stand before it), and [rendered_entries] holds exactly the
    entries whose hook was called. *)
Theorem parents_are_rendered_first
    (output_writer : list WriterCall) (events : list Event) :
  is_path_tree →
  let self := foldl handle (new output_writer) events in
  parents_first (render_into_calls self)
  ∧ ∀ rendered, rendered ∈ rendered_entries self
                ↔ rendered ∈ render_into_calls self.
Proof.
  intros Hpath.
  destruct (handle_all_in_order Hpath events (new output_writer)
              (new_in_order output_writer)) as [Hexact Hfirst].
  by split.
Qed.

End DefaultRuns.

(** The numbered tree gives the path from the root. *)
Lemma positive_parents_path : @Default.is_path_tree Default.plain_collaborators.
Proof.
  intros node. simpl.
  induction node as [node IH|node IH|]; simpl; intros before parent after Hpath.
  - destruct after as [|last after _] using rev_ind.
    + by apply app_inj_tail in Hpath as [<- <-].
    + rewrite app_comm_cons, app_assoc in Hpath.
      apply app_inj_tail in Hpath as [Hpath _]. by eapply IH.
  - destruct after as [|last after _] using rev_ind.
    + by apply app_inj_tail in Hpath as [<- <-].
    + rewrite app_comm_cons, app_assoc in Hpath.
      apply app_inj_tail in Hpath as [Hpath _]. by eapply IH.
  - by destruct before.
Qed.

Lemma maybe_render_marks_entry_witness :
  1%positive ∈ @Default.rendered_entries Default.plain_collaborators
    (@Default._maybe_render_test_file_into Default.plain_collaborators
       (Default.new []) [] 6%positive None).2.
Proof.
  apply (proj2 (proj2 (proj2
    (@maybe_render_marks_entry Default.plain_collaborators
       (Default.new []) [] 6%positive None)))).
  - apply not_elem_of_empty.
  - simpl. by left.
Defined.

Lemma maybe_render_calls_in_order_witness :
  @Default.render_into_calls Default.plain_collaborators
    (@Default._maybe_render_test_file_into Default.plain_collaborators
       (@Default.handle Default.plain_collaborators (Default.new [])
          (Default.FileTestingDoneEvent (Default.example_file 3)))
       [] 6%positive None).2
  = [1%positive; 3%positive] ++ [] ++ [6%positive].
Proof.
  apply (@maybe_render_calls_in_order Default.plain_collaborators
           (@Default.handle Default.plain_collaborators (Default.new [])
              (Default.FileTestingDoneEvent (Default.example_file 3)))
           [] 6%positive None).
  - simpl. apply NoDup_cons. split; [|apply NoDup_singleton].
    by intros [=]%list_elem_of_singleton.
  - by vm_compute.
Defined.

Lemma lines_written_by_event_witness :
  let self :=
    @Default.handle Default.plain_collaborators (Default.new [])
      (Default.TestDoneEvent Default.example_failed_result) in
  Default.handle self (Default.FileTestingDoneEvent (Default.example_file 3))
  = self.
Proof.
  apply (proj2 (@lines_written_by_event Default.plain_collaborators
                  (@Default.handle Default.plain_collaborators (Default.new [])
                     (Default.TestDoneEvent Default.example_failed_result))
                  (Default.FileTestingDoneEvent (Default.example_file 3)))).
  by vm_compute.
Defined.

Lemma file_testing_done_after_rendering_witness :
  let after :=
    foldl (@Default.handle Default.plain_collaborators) (Default.new [])
      ([] ++ Default.TestDoneEvent Default.example_failed_result
          :: [Default.FileTestingDoneEvent (Default.example_file 7)]) in
  Default.file_testing_done after (Default.example_file 3) = after.
Proof.
  apply (@file_testing_done_after_rendering Default.plain_collaborators
           (Default.new []) []
           [Default.FileTestingDoneEvent (Default.example_file 7)]
           (Default.TestDoneEvent Default.example_failed_result)
           (Default.example_file 3)).
  reflexivity.
Defined.

Lemma parents_are_rendered_first_witness :
  Default.parents_first
    (@Default.render_into_calls Default.plain_collaborators
       (foldl Default.handle (Default.new [])
          [Default.FileTestingDoneEvent (Default.example_file 6);
           Default.FileTestingDoneEvent (Default.example_file 7)])).
Proof.
  apply (@parents_are_rendered_first Default.plain_collaborators [] _
           positive_parents_path).
Defined.

Lemma returned_value_reports_writing_witness :
  (OutputWriter.perform (OutputWriter.new []) (OutputWriter.call_write "")).2
  = OutputWriter.new [].
Proof.
  apply (proj2 (proj2 (returned_value_reports_writing
                         (OutputWriter.new []) (OutputWriter.call_write "")))).
  reflexivity.
Defined.

(* ===================================================================== *)
(** * Further properties of assertions/assertion_base.py *)
(* ===================================================================== *)

Section ReprFacts.
Import Py Assertions.

(** The representation of a condition is bracketed, whatever a subclass
    adds: the parts a consumer of [_cursed_repr_builder] appends while the
    generator is suspended come after the state and before the closing
    [">"].  So the text starts with ["<"] and the class name, ends with
    [">"], and [__repr__], which appends nothing, gives
    ["<{class name} state={state name}>"]. *)
Theorem repr_is_bracketed
    (class_name : string) (self : AssertionBase) (extra : list string) :
  let text := join (_cursed_repr_builder class_name self extra) in
  text = "<" +:+ class_name +:+ " state="
         +:+ get_assertion_state_name (state self) +:+ join extra +:+ ">"
  ∧ startswith text ("<" +:+ class_name) = true
  ∧ endswith text ">" = true
  ∧ repr class_name self
    = "<" +:+ class_name +:+ " state="
      +:+ get_assertion_state_name (state self) +:+ ">".
Proof.
  assert (join (_cursed_repr_builder class_name self extra)
          = "<" +:+ class_name +:+ " state="
            +:+ get_assertion_state_name (state self) +:+ join extra +:+ ">")
    as Htext.
  { unfold _cursed_repr_builder. rewrite !join_app.
    unfold join at 1 2 3 5. simpl foldr.
    by rewrite !string_app_nil_r, !string_app_assoc. }
  intros text. subst text. split; [done|]. split; [|split].
  - rewrite Htext.
    rewrite <- (string_app_assoc "<" class_name).
    apply startswith_app_self.
  - rewrite Htext. rewrite <- !string_app_assoc. apply endswith_app_self.
  - unfold repr. unfold _cursed_repr_builder. rewrite !join_app.
    unfold join. simpl foldr.
    by rewrite !string_app_nil_r, !string_app_assoc.
Qed.

End ReprFacts.
